(** * The aggregation pipeline of [app.py]

    A shallow embedding of the data preparation and of the aggregate views
    computed by the dashboard script, together with the properties its
    specification states about them.

    The script is a sequence of pandas expressions over one table.  The
    embedding keeps that shape: a [DataFrame] is a header and a list of
    rows, a missing cell ([NaN]) is [None], a pandas operation is a
    function on frames or series, and an operation that raises returns
    [Raise].  The names of the script are kept. *)

From Stdlib Require Import ZArith QArith Strings.Byte Ascii String DecimalString.
From stdpp Require Import base option list sorting strings gmap.

Local Open Scope string_scope.
Local Open Scope list_scope.
Local Open Scope nat_scope.

(** ** Exceptions and fallible computations *)

Inductive excepcion : Type :=
| UnicodeDecodeError
| ParserError
| KeyError (col : string)
| IndexError.

Inductive resultado (A : Type) : Type :=
| Ok (a : A)
| Raise (e : excepcion).
Arguments Ok {A} a.
Arguments Raise {A} e.

#[global] Instance resultado_ret : MRet resultado := fun A a => Ok a.
#[global] Instance resultado_bind : MBind resultado := fun A B f m =>
  match m with
  | Ok a => f a
  | Raise e => Raise e
  end.
#[global] Instance resultado_fmap : FMap resultado := fun A B f m =>
  match m with
  | Ok a => Ok (f a)
  | Raise e => Raise e
  end.

(** ** Cells, series and frames *)

(** The values pandas infers for the cells of a column read from text.
    Floats are left out: pandas reads a numeric column that has a missing
    cell as floats, and the text [astype(str)] gives for such a cell
    ([1.0] for 1) is outside this model. *)
Inductive valor : Type :=
| VStr (s : string)
| VInt (n : Z)
| VBool (b : bool).

#[global] Instance valor_eq_dec : EqDecision valor.
Proof. solve_decision. Defined.

(** A cell; [None] is the missing value [NaN]. *)
Abbreviation celda := (option valor).
Abbreviation Series := (list celda).

Record DataFrame : Type := {
  columns : list string;
  filas : list (list celda)
}.

(** [celda_en i f]: the cell of row [f] under the [i]-th column.  A row
    shorter than the header is missing there, as in a frame read from a
    file with short records. *)
Definition celda_en (i : nat) (f : list celda) : celda := mjoin (f !! i).

(** Position of the column named [c] in a header. *)
Fixpoint posicion (c : string) (cols : list string) : option nat :=
  match cols with
  | [] => None
  | c' :: cols' => if decide (c = c') then Some 0 else S <$> posicion c cols'
  end.

(** [df[c]] *)
Definition getitem (df : DataFrame) (c : string) : resultado Series :=
  match posicion c (columns df) with
  | Some i => Ok (celda_en i <$> filas df)
  | None => Raise (KeyError c)
  end.

(** [df[c] = s] for a column the frame already has; a new name appends a
    column. *)
Definition setitem (df : DataFrame) (c : string) (s : Series) : DataFrame :=
  match posicion c (columns df) with
  | Some i =>
      {| columns := columns df;
         filas := zip_with (fun f v => <[i:=v]> f) (filas df) s |}
  | None =>
      let n := length (columns df) in
      {| columns := columns df ++ [c];
         filas := zip_with (fun f v => take n (f ++ replicate n None) ++ [v])
                           (filas df) s |}
  end.

(** [len(df)] *)
Definition len (df : DataFrame) : nat := length (filas df).

(** [df.dropna()]: a row stays when none of its cells under the header is
    missing. *)
Definition completa (cols : list string) (f : list celda) : bool :=
  forallb (fun i => bool_decide (is_Some (celda_en i f))) (seq 0 (length cols)).

Definition dropna (df : DataFrame) : DataFrame :=
  {| columns := columns df;
     filas := List.filter (completa (columns df)) (filas df) |}.

(** [str(v)] *)
Definition str (v : valor) : string :=
  match v with
  | VStr s => s
  | VInt n => NilZero.string_of_int (Z.to_int n)
  | VBool true => "True"
  | VBool false => "False"
  end.

(** [s.astype(str)]; pandas turns a missing cell into the text [nan]. *)
Definition celda_str (c : celda) : celda :=
  match c with
  | Some v => Some (VStr (str v))
  | None => Some (VStr "nan")
  end.

Definition astype_str (s : Series) : Series := celda_str <$> s.

(** ** Reading the file *)

(** The [utf-8-sig] codec: an optional byte-order mark is dropped and what
    follows must be well-formed UTF-8 (no overlong form, no surrogate,
    nothing above U+10FFFF).  The decoded text is kept in its UTF-8 form,
    which for well-formed input is the input itself. *)
Definition entre (lo hi : N) (b : byte) : bool :=
  ((lo <=? Byte.to_N b) && (Byte.to_N b <=? hi))%N.

Definition cont (b : byte) : bool := entre 128 191 b.

Fixpoint utf8_valido (bs : list byte) : bool :=
  match bs with
  | [] => true
  | b0 :: r0 =>
    if entre 0 127 b0 then utf8_valido r0 else
    match r0 with
    | [] => false
    | b1 :: r1 =>
      if entre 194 223 b0 then cont b1 && utf8_valido r1 else
      match r1 with
      | [] => false
      | b2 :: r2 =>
        if entre 224 224 b0 then entre 160 191 b1 && cont b2 && utf8_valido r2
        else if entre 225 236 b0 then cont b1 && cont b2 && utf8_valido r2
        else if entre 237 237 b0 then entre 128 159 b1 && cont b2 && utf8_valido r2
        else if entre 238 239 b0 then cont b1 && cont b2 && utf8_valido r2
        else
        match r2 with
        | [] => false
        | b3 :: r3 =>
          if entre 240 240 b0
          then entre 144 191 b1 && cont b2 && cont b3 && utf8_valido r3
          else if entre 241 243 b0
          then cont b1 && cont b2 && cont b3 && utf8_valido r3
          else if entre 244 244 b0
          then entre 128 143 b1 && cont b2 && cont b3 && utf8_valido r3
          else false
        end
      end
    end
  end.

Definition sin_bom (bs : list byte) : list byte :=
  match bs with
  | xef :: xbb :: xbf :: r => r
  | _ => bs
  end.

Definition decode_utf8_sig (bs : list byte) : option string :=
  let cuerpo := sin_bom bs in
  if utf8_valido cuerpo then Some (string_of_list_byte cuerpo) else None.

Section Carga.

(** The tokenizer and type inference of [pd.read_csv], from the decoded
    text to a frame or to the exception it raises.  The loader is
    stated over any such reader. *)
Variable analizar : string -> resultado DataFrame.

(** [pd.read_csv(path, encoding='utf-8-sig')] on the bytes of the file. *)
Definition read_csv (contenido : list byte) : resultado DataFrame :=
  match decode_utf8_sig contenido with
  | None => Raise UnicodeDecodeError
  | Some texto => analizar texto
  end.

Definition columnas_str : list string :=
  ["Departamento del hecho DANE"; "Ciclo Vital"; "Sexo de la victima";
   "Escenario del Hecho"; "Mecanismo Causal de la Lesion Fatal";
   "Razon del Suicidio"].

(** The loop [for col in columnas_str: df_limpio[col] = df_limpio[col].astype(str)]. *)
Fixpoint a_texto (cols : list string) (df_limpio : DataFrame) : resultado DataFrame :=
  match cols with
  | [] => Ok df_limpio
  | col :: cols' =>
      s ← getitem df_limpio col;
      a_texto cols' (setitem df_limpio col (astype_str s))
  end.

Definition cargar_datos (contenido : list byte) : resultado DataFrame :=
  df ← read_csv contenido;
  let df_limpio := dropna df in
  a_texto columnas_str df_limpio.

End Carga.

(** The columns the script reads: the six categorical ones and the year. *)
Definition col_anio : string := "Año del hecho".
Definition col_depto : string := "Departamento del hecho DANE".
Definition col_ciclo : string := "Ciclo Vital".
Definition col_sexo : string := "Sexo de la victima".
Definition col_escenario : string := "Escenario del Hecho".
Definition col_mecanismo : string := "Mecanismo Causal de la Lesion Fatal".
Definition col_razon : string := "Razon del Suicidio".

Definition columnas_requeridas : list string := col_anio :: columnas_str.

(** The marker of an unreported department or reason. *)
Definition sin_informacion : valor := VStr "Sin informacion".

(** *** A reader for plain files

    A splitter for the files of the worked examples, on which it yields
    what [pd.read_csv] does: records end at a line feed, fields at a
    comma, empty lines are skipped, an empty field is missing, a field of
    decimal digits is an integer.  It is not the parser of pandas: that
    one also reads [NA], [NaN], [null] and the like as missing, drops a
    carriage return at the end of a line, refuses a record longer than
    the header and infers one type for a whole column.  The example
    files have none of these, and the general statements take the parser
    as a variable. *)
Fixpoint partir (sep : ascii) (s : string) : list string :=
  match s with
  | EmptyString => [EmptyString]
  | String a s' =>
      if decide (a = sep) then EmptyString :: partir sep s'
      else match partir sep s' with
           | [] => [String a EmptyString]
           | w :: ws => String a w :: ws
           end
  end.

Definition leer_campo (s : string) : celda :=
  match s with
  | EmptyString => None
  | _ => match NilZero.uint_of_string s with
         | Some d => Some (VInt (Z.of_uint d))
         | None => Some (VStr s)
         end
  end.

Definition salto : ascii := ascii_of_nat 10.

Definition csv_sencillo (texto : string) : resultado DataFrame :=
  match List.filter (fun l => negb (String.eqb l EmptyString)) (partir salto texto) with
  | [] => Raise ParserError
  | cabecera :: registros =>
      Ok {| columns := partir "," cabecera;
            filas := (fun l => leer_campo <$> partir "," l) <$> registros |}
  end.

(** The bytes of a file given by its lines. *)
Definition archivo (lineas : list string) : list byte :=
  list_byte_of_string (String.concat (String salto EmptyString) lineas).

(** ** Grouping, counting and ordering *)

Section Agrupar.
Context {A : Type} `{EqDecision A}.

(** Number of occurrences of [x]. *)
Definition contar (x : A) (l : list A) : nat :=
  length (filter (fun y => y = x) l).

(** [unique()]: the distinct values, each at its first appearance. *)
Fixpoint unique (l : list A) : list A :=
  match l with
  | [] => []
  | x :: l' => x :: filter (fun y => y ≠ x) (unique l')
  end.

(** Index of the first appearance of [x]. *)
Fixpoint primera (x : A) (l : list A) : option nat :=
  match l with
  | [] => None
  | y :: l' => if decide (x = y) then Some 0 else S <$> primera x l'
  end.

(** The groups of a column in order of first appearance, with sizes. *)
Definition grupos (l : list A) : list (A * nat) :=
  (fun k => (k, contar k l)) <$> unique l.

(** First entry under key [k] of a table of pairs. *)
Fixpoint buscar {B : Type} (k : A) (t : list (A * B)) : option B :=
  match t with
  | [] => None
  | (k', b) :: t' => if decide (k = k') then Some b else buscar k t'
  end.

(** [x] first appears in [l] before [y] does. *)
Definition antes l x y : Prop :=
  ∃ i j, primera x l = Some i ∧ primera y l = Some j ∧ i < j.
End Agrupar.

Section Ordenar.
Context {A : Type} (leb : A -> A -> bool).

(** A stable sort: an element goes before the first one it precedes
    or ties with, and the later elements of the input are placed first. *)
Fixpoint insertar (x : A) (l : list A) : list A :=
  match l with
  | [] => [x]
  | y :: l' => if leb x y then x :: l else y :: insertar x l'
  end.

Definition ordenar (l : list A) : list A := foldr insertar [] l.

(** How two elements stand in the output of the sort when [Q] is the
    order in which the input has them: [a] is not after [b], and when
    they tie [a] came first. *)
Definition en_orden (Q : A → A → Prop) (a b : A) : Prop :=
  leb a b = true ∧ (leb b a = true → Q a b).
End Ordenar.

(** The order of the keys of one column: that of Python on two values of
    one type (code points for text, which in UTF-8 is the byte order);
    numbers go before text, as pandas sorts a mixed column. *)
Definition valor_leb (a b : valor) : bool :=
  match a, b with
  | VBool x, VBool y => implb x y
  | VBool _, _ => true
  | VInt _, VBool _ => false
  | VInt x, VInt y => (x <=? y)%Z
  | VInt _, VStr _ => true
  | VStr x, VStr y => String.leb x y
  | VStr _, _ => false
  end.

Definition valor_lt (a b : valor) : Prop := valor_leb a b = true ∧ a ≠ b.

(** Lexicographic order on the keys of a grouping by two columns. *)
Definition par_leb (a b : valor * valor) : bool :=
  if decide (a.1 = b.1) then valor_leb a.2 b.2 else valor_leb a.1 b.1.

(** [s.dropna()] on a series. *)
Definition dropna_s (s : Series) : list valor := omap id s.

(** A group at least as large as another. *)
Definition mas_frecuente (a b : valor * nat) : bool := (b.2 <=? a.2)%nat.

(** [s.value_counts()]: missing cells are left out and the groups are
    sorted by decreasing size.  Groups of one size keep the order in which
    pandas' grouping meets their keys, that of first appearance. *)
Definition value_counts (s : Series) : list (valor * nat) :=
  ordenar mas_frecuente (grupos (dropna_s s)).

(** [s.nunique()] *)
Definition nunique (s : Series) : nat := length (unique (dropna_s s)).

(** [df.groupby(c).size().reset_index(name='Cantidad')]: one row per key
    observed, keys in increasing order; missing keys are left out. *)
Definition groupby_size (s : Series) : list (valor * nat) :=
  let l := dropna_s s in
  (fun k => (k, contar k l)) <$> ordenar valor_leb (unique l).

(** [df.groupby([c1, c2]).size().reset_index(name='Cantidad')]: rows
    missing either key are left out. *)
Definition pares (s1 s2 : Series) : list (valor * valor) :=
  omap (fun p => match p with
                 | (Some a, Some b) => Some (a, b)
                 | _ => None
                 end) (zip s1 s2).

Definition groupby2_size (s1 s2 : Series) : list (valor * valor * nat) :=
  let l := pares s1 s2 in
  (fun k => (k, contar k l)) <$> ordenar par_leb (unique l).

(** [t.sort_values(key column)] on a table of keys and sizes. *)
Definition sort_values (t : list (valor * nat)) : list (valor * nat) :=
  ordenar (fun a b => valor_leb a.1 b.1) t.

(** [t.head(n)] *)
Definition head {A : Type} (n : nat) (t : list A) : list A := take n t.

(** Boolean masks [s != v], [s == v], and the selection [df[mask]]. *)
Definition ne (s : Series) (v : valor) : list bool :=
  (fun c => bool_decide (c ≠ Some v)) <$> s.

Definition eq_ (s : Series) (v : valor) : list bool :=
  (fun c => bool_decide (c = Some v)) <$> s.

Definition seleccionar (df : DataFrame) (mascara : list bool) : DataFrame :=
  {| columns := columns df;
     filas := fst <$> List.filter snd (zip (filas df) mascara) |}.

(** [t['Cantidad'].sum()] *)
Definition suma {K : Type} (t : list (K * nat)) : nat := sum_list_with snd t.

(** ** The aggregates of the script *)

Definition num_registros (df : DataFrame) : nat := len df.
Definition num_columnas (df : DataFrame) : nat := length (columns df).

Definition df_con_depto (df : DataFrame) : resultado DataFrame :=
  s ← getitem df col_depto;
  mret (seleccionar df (ne s sin_informacion)).

Definition num_departamentos (df : DataFrame) : resultado nat :=
  d ← df_con_depto df;
  s ← getitem d col_depto;
  mret (nunique s).

Definition df_ciclo (df : DataFrame) : resultado (list (valor * nat)) :=
  s ← getitem df col_ciclo;
  mret (value_counts s).

(** The columns [Sexo] and [Cantidad] of [df_genero]; the rounded
    percentage column is not part of the model. *)
Definition df_genero (df : DataFrame) : resultado (list (valor * nat)) :=
  s ← getitem df col_sexo;
  mret (value_counts s).

Definition df_genero_ciclo (df : DataFrame) : resultado (list (valor * valor * nat)) :=
  s1 ← getitem df col_ciclo;
  s2 ← getitem df col_sexo;
  mret (groupby2_size s1 s2).

Definition df_temporal (df : DataFrame) : resultado (list (valor * nat)) :=
  s ← getitem df col_anio;
  mret (sort_values (groupby_size s)).

Definition años_indicadores : list Z := [2021; 2022; 2023; 2024]%Z.

(** The first loop over [años_indicadores]. *)
Definition indicadores (df_temporal : list (valor * nat)) : gmap Z Z :=
  foldl (fun ind año =>
           match buscar (VInt año) df_temporal with
           | Some cantidad => <[año := Z.of_nat cantidad]> ind
           | None => <[año := 0%Z]> ind
           end) ∅ años_indicadores.

(** The body of the second loop, at index [i] and year [año].  The
    quotient of two integers is the exact rational, which Python rounds to
    the nearest double.  The entries read are ones the first loop has
    stored. *)
Definition paso_deltas (indicadores : gmap Z Z) (deltas : gmap Z Q)
    (p : nat * Z) : gmap Z Q :=
  let '(i, año) := p in
  if decide (0 < i)%nat then
    let año_anterior := años_indicadores !!! (i - 1)%nat in
    if decide (0 < indicadores !!! año_anterior)%Z then
      <[año := (inject_Z (indicadores !!! año - indicadores !!! año_anterior)
                / inject_Z (indicadores !!! año_anterior))%Q]> deltas
    else <[año := 0%Q]> deltas
  else <[año := 0%Q]> deltas.

(** [for i, año in enumerate(años_indicadores)] *)
Definition deltas (indicadores : gmap Z Z) : gmap Z Q :=
  foldl (paso_deltas indicadores) ∅ (imap (fun i año => (i, año)) años_indicadores).

Definition df_depto_anio (df : DataFrame) : resultado (list (valor * valor * nat)) :=
  s1 ← getitem df col_depto;
  s2 ← getitem df col_anio;
  mret (groupby2_size s1 s2).

Definition lista_deptos (df : DataFrame) : resultado (list valor) :=
  s ← getitem df col_depto;
  mret (ordenar valor_leb (unique (dropna_s s))).

Definition df_escenario (df : DataFrame) : resultado (list (valor * nat)) :=
  s ← getitem df col_escenario;
  mret (head 10 (value_counts s)).

Definition df_mecanismo (df : DataFrame) : resultado (list (valor * nat)) :=
  s ← getitem df col_mecanismo;
  mret (head 10 (value_counts s)).

Definition df_razones (df : DataFrame) : resultado (list (valor * nat)) :=
  s ← getitem df col_razon;
  mret (head 10 (value_counts s)).

(** [df[df[c] != v][c].value_counts()], the counts of a column without
    the rows that hold [v]. *)
Definition conteo_sin (c : string) (v : valor) (df : DataFrame)
  : resultado (list (valor * nat)) :=
  s ← getitem df c;
  s' ← getitem (seleccionar df (ne s v)) c;
  mret (value_counts s').

Definition df_razones_filtrado (df : DataFrame) : resultado (list (valor * nat)) :=
  head 10 <$> conteo_sin col_razon sin_informacion df.

(** The result of a division of numpy integers: a finite float, kept as
    the exact rational it rounds, or the infinity or not-a-number that a
    zero divisor yields (numpy warns and does not raise). *)
Inductive flotante : Type :=
| Finito (q : Q)
| NoFinito.

Definition iloc {A : Type} (i : nat) (t : list A) : resultado A :=
  match t !! i with
  | Some x => Ok x
  | None => Raise IndexError
  end.

(** [df_temporal.iloc[0]['Cantidad']] *)
Definition casos_inicial (df_temporal : list (valor * nat)) : resultado nat :=
  snd <$> iloc 0 df_temporal.

(** [df_temporal.iloc[-1]['Cantidad']] *)
Definition casos_final (df_temporal : list (valor * nat)) : resultado nat :=
  snd <$> iloc (length df_temporal - 1) df_temporal.

(** [((casos_final - casos_inicial) / casos_inicial) * 100] *)
Definition variacion_total (df_temporal : list (valor * nat)) : resultado flotante :=
  ini ← casos_inicial df_temporal;
  fin ← casos_final df_temporal;
  mret (if decide (ini = 0)%nat then NoFinito
        else Finito ((inject_Z (Z.of_nat fin - Z.of_nat ini)
                      / inject_Z (Z.of_nat ini)) * 100)%Q).

(** The reasons under the selections of the three widgets. *)
Definition df_filtrado (df : DataFrame) (ciclo_seleccionado genero_seleccionado : string)
  : resultado DataFrame :=
  df1 ← (if decide (ciclo_seleccionado ≠ "Todos") then
           s ← getitem df col_ciclo;
           mret (seleccionar df (eq_ s (VStr ciclo_seleccionado)))
         else mret df);
  if decide (genero_seleccionado ≠ "Todos") then
    s ← getitem df1 col_sexo;
    mret (seleccionar df1 (eq_ s (VStr genero_seleccionado)))
  else mret df1.

Definition df_razones_dinamico (df : DataFrame) (incluir_sin_info : bool)
    (ciclo_seleccionado genero_seleccionado : string)
  : resultado (list (valor * nat)) :=
  f ← df_filtrado df ciclo_seleccionado genero_seleccionado;
  if incluir_sin_info then
    s ← getitem f col_razon;
    mret (head 10 (value_counts s))
  else
    head 10 <$> conteo_sin col_razon sin_informacion f.

(** ** The figures of the page *)

(** [df['Año del hecho'].nunique()] *)
Definition num_anios (df : DataFrame) : resultado nat :=
  s ← getitem df col_anio;
  mret (nunique s).

(** [t.iloc[0][key]] and [t.iloc[0]['Cantidad']] on a table of counts. *)
Definition clave_principal (t : list (valor * nat)) : resultado valor :=
  fst <$> iloc 0 t.

Definition casos_principal (t : list (valor * nat)) : resultado nat :=
  snd <$> iloc 0 t.

Definition ciclo_mayor (df : DataFrame) : resultado valor :=
  t ← df_ciclo df; clave_principal t.

Definition casos_mayor (df : DataFrame) : resultado nat :=
  t ← df_ciclo df; casos_principal t.

Definition escenario_principal (df : DataFrame) : resultado valor :=
  t ← df_escenario df; clave_principal t.

Definition casos_escenario (df : DataFrame) : resultado nat :=
  t ← df_escenario df; casos_principal t.

Definition mecanismo_principal (df : DataFrame) : resultado valor :=
  t ← df_mecanismo df; clave_principal t.

Definition casos_mecanismo (df : DataFrame) : resultado nat :=
  t ← df_mecanismo df; casos_principal t.

(** [t[t[key] == v]['Cantidad'].values[0]]: the first count under [v];
    indexing the empty array raises. *)
Definition cantidad_de (v : valor) (t : list (valor * nat)) : resultado nat :=
  iloc 0 (snd <$> filter (fun e => e.1 = v) t).

Definition hombres (df : DataFrame) : resultado nat :=
  t ← df_genero df; cantidad_de (VStr "Hombre") t.

Definition mujeres (df : DataFrame) : resultado nat :=
  t ← df_genero df; cantidad_de (VStr "Mujer") t.

(** [hombres / mujeres], a quotient of numpy integers. *)
Definition ratio (df : DataFrame) : resultado flotante :=
  h ← hombres df;
  m ← mujeres df;
  mret (if decide (m = 0)%nat then NoFinito
        else Finito (inject_Z (Z.of_nat h) / inject_Z (Z.of_nat m))%Q).

(** The branch on [variacion_total > 0].  The non-finite quotient is the
    positive infinity when the last count is positive, which is greater
    than 0, and not-a-number otherwise, for which no comparison holds. *)
Definition tendencia (df_temporal : list (valor * nat)) : resultado string :=
  v ← variacion_total df_temporal;
  fin ← casos_final df_temporal;
  mret (match v with
        | Finito q => if Qlt_le_dec 0 q then "incremento" else "disminución"
        | NoFinito => if decide (0 < fin)%nat then "incremento" else "disminución"
        end).

(** [lista_deptos.index('Antioquia') if 'Antioquia' in lista_deptos else 0],
    the department selected at first. *)
Definition indice_inicial (lista_deptos : list valor) : nat :=
  match primera (VStr "Antioquia") lista_deptos with
  | Some i => i
  | None => 0
  end.

(** [df_depto_anio[df_depto_anio['Departamento del hecho DANE'] == depto_seleccionado]] *)
Definition df_depto_filtrado (df : DataFrame) (depto_seleccionado : valor)
  : resultado (list (valor * valor * nat)) :=
  t ← df_depto_anio df;
  mret (filter (fun e => e.1.1 = depto_seleccionado) t).

(** The main finding on the reasons: the first row of the view when
    [len(df_razones_dinamico) > 0], and the warning, [None], otherwise. *)
Definition razon_principal (df_razones_dinamico : list (valor * nat))
  : resultado (option (valor * nat)) :=
  if decide (0 < length df_razones_dinamico)%nat
  then Some <$> iloc 0 df_razones_dinamico
  else mret None.

(** ** Notions used in the statements *)

(** The position [j] lies under one of the six categorical columns. *)
Definition es_categorica (cols : list string) (j : nat) : bool :=
  bool_decide (Exists (fun c => posicion c cols = Some j) columnas_str).

(** Row [f'] is row [f] with the cells of the categorical columns turned
    into text and every other cell untouched. *)
Definition coaccionada (cols : list string) (f f' : list celda) : Prop :=
  length f' = length f ∧
  ∀ j, celda_en j f' =
       if es_categorica cols j
       then (fun v => VStr (str v)) <$> celda_en j f
       else celda_en j f.

(** The effect of the coercion loop on one row, given the positions of
    the columns it visits. *)
Definition fila_a_texto (ps : list nat) (f : list celda) : list celda :=
  foldl (fun f i => <[i := celda_str (celda_en i f)]> f) f ps.

(** The invariant of a loaded dataset: no cell under the header is
    missing, and the categorical columns hold text. *)
Definition limpio (df : DataFrame) : Prop :=
  Forall (fun f => ∀ i, i < length (columns df) → celda_en i f ≠ None) (filas df) ∧
  ∀ c, c ∈ columnas_str →
       ∃ i, posicion c (columns df) = Some i ∧
            Forall (fun f => ∃ s, celda_en i f = Some (VStr s)) (filas df).

(** A view that is returned and whose sizes are all positive. *)
Definition positivas {K : Type} (r : resultado (list (K * nat))) : Prop :=
  ∃ t, r = Ok t ∧ Forall (fun e => 1 ≤ e.2) t.

(** Row [f] passes the selections of life-cycle stage and sex, the
    columns being at positions [i] and [j]. *)
Definition pasa (i j : nat) (ciclo genero : string) (f : list celda) : Prop :=
  (ciclo = "Todos" ∨ celda_en i f = Some (VStr ciclo)) ∧
  (genero = "Todos" ∨ celda_en j f = Some (VStr genero)).

#[global] Instance pasa_dec i j ciclo genero f : Decision (pasa i j ciclo genero f).
Proof. unfold pasa. apply _. Defined.

(** The order of [value_counts] on a column whose values are [l]: a
    larger group goes first, and of two groups of one size the one whose
    key appears first in the column. *)
Definition orden_conteo (l : list valor) (a b : valor * nat) : Prop :=
  b.2 ≤ a.2 ∧ (a.2 = b.2 → antes l a.1 b.1).

(** The order the specification documents: a larger group goes first,
    and of two groups of one size the one with the smaller key. *)
Definition orden_documentado (a b : valor * nat) : Prop :=
  b.2 < a.2 ∨ (a.2 = b.2 ∧ valor_lt a.1 b.1).

#[global] Instance valor_lt_dec a b : Decision (valor_lt a b).
Proof. unfold valor_lt. apply _. Defined.

#[global] Instance orden_documentado_dec a b : Decision (orden_documentado a b).
Proof. unfold orden_documentado. apply _. Defined.

(** Number of rows of the year [y] in the year column [s]. *)
Definition cuenta (s : Series) (y : Z) : Z := Z.of_nat (contar (Some (VInt y)) s).

(** The relative change of the count from year [a] to year [b], 0 when
    year [a] has no rows. *)
Definition variacion_relativa (s : Series) (a b : Z) : Q :=
  if decide (cuenta s a = 0)%Z then 0%Q
  else (inject_Z (cuenta s b - cuenta s a) / inject_Z (cuenta s a))%Q.

(** ** Worked files *)

Definition cabecera_completa : string :=
  "Año del hecho,Departamento del hecho DANE,Ciclo Vital,Sexo de la victima,Escenario del Hecho,Mecanismo Causal de la Lesion Fatal,Razon del Suicidio".

Definition archivo_ejemplo : list byte :=
  archivo [cabecera_completa;
           "2021,Antioquia,Adultez,Hombre,Vivienda,Ahorcamiento,Sin informacion";
           "2021,Sin informacion,Juventud,Mujer,Via publica,Ahorcamiento,Desamor";
           "2022,Antioquia,Adultez,Hombre,Vivienda,Ahorcamiento,Sin informacion";
           "2022,,Adultez,Hombre,Vivienda,Ahorcamiento,Sin informacion";
           "2023,Cauca,Adultez,Hombre,Hospital,Intoxicacion,Economicas"].

Definition df_ejemplo : DataFrame :=
  {| columns := [col_anio; col_depto; col_ciclo; col_sexo; col_escenario;
                 col_mecanismo; col_razon];
     filas :=
       [[Some (VInt 2021); Some (VStr "Antioquia"); Some (VStr "Adultez");
         Some (VStr "Hombre"); Some (VStr "Vivienda"); Some (VStr "Ahorcamiento");
         Some (VStr "Sin informacion")];
        [Some (VInt 2021); Some (VStr "Sin informacion"); Some (VStr "Juventud");
         Some (VStr "Mujer"); Some (VStr "Via publica"); Some (VStr "Ahorcamiento");
         Some (VStr "Desamor")];
        [Some (VInt 2022); Some (VStr "Antioquia"); Some (VStr "Adultez");
         Some (VStr "Hombre"); Some (VStr "Vivienda"); Some (VStr "Ahorcamiento");
         Some (VStr "Sin informacion")];
        [Some (VInt 2023); Some (VStr "Cauca"); Some (VStr "Adultez");
         Some (VStr "Hombre"); Some (VStr "Hospital"); Some (VStr "Intoxicacion");
         Some (VStr "Economicas")]] |}.


(** A file that has the six categorical columns and no year. *)
Definition archivo_sin_anio : list byte :=
  archivo ["Departamento del hecho DANE,Ciclo Vital,Sexo de la victima,Escenario del Hecho,Mecanismo Causal de la Lesion Fatal,Razon del Suicidio";
           "Antioquia,Adultez,Hombre,Vivienda,Ahorcamiento,Desamor"].


(** A file without the life-cycle column. *)
Definition archivo_sin_ciclo : list byte :=
  archivo ["Año del hecho,Departamento del hecho DANE,Sexo de la victima,Escenario del Hecho,Mecanismo Causal de la Lesion Fatal,Razon del Suicidio";
           "2021,Antioquia,Hombre,Vivienda,Ahorcamiento,Desamor"].

Definition df_sin_ciclo : DataFrame :=
  {| columns := [col_anio; col_depto; col_sexo; col_escenario; col_mecanismo;
                 col_razon];
     filas := [[Some (VInt 2021); Some (VStr "Antioquia"); Some (VStr "Hombre");
                Some (VStr "Vivienda"); Some (VStr "Ahorcamiento");
                Some (VStr "Desamor")]] |}.

(** The header [Año] in Latin-1: the byte 0xF1 does not start a UTF-8
    sequence that [o] continues. *)
Definition archivo_latin1 : list byte := [x41; xf1; x6f; x0a; x31].




(** * Properties *)

(** Closes a decidable goal about concrete data by evaluation. *)
Ltac por_calculo := apply (bool_decide_unpack _); vm_compute; exact I.

(** ** The loader *)

Lemma posicion_lookup c cols i :
  posicion c cols = Some i → cols !! i = Some c.
Proof.
  revert i. induction cols as [|c' cols IH]; intros i; simpl; [done|].
  case_decide as Hc.
  - intros [= <-]. by subst.
  - destruct (posicion c cols) as [k|]; simpl; [|done].
    intros [= <-]. by apply IH.
Qed.

Lemma posicion_lt c cols i : posicion c cols = Some i → i < length cols.
Proof. intros H. eapply lookup_lt_Some, posicion_lookup, H. Qed.

Lemma posicion_None c cols : posicion c cols = None ↔ c ∉ cols.
Proof.
  induction cols as [|c' cols IH]; simpl.
  - split; [intros _; apply not_elem_of_nil | done].
  - rewrite not_elem_of_cons. case_decide as Hc.
    + split; [done | intros [? _]; done].
    + destruct (posicion c cols); simpl.
      * split; [done|]. intros [_ H]. by apply IH in H.
      * split; [|done]. intros _. split; [done | by apply IH].
Qed.

Lemma posicion_is_Some c cols : c ∈ cols → is_Some (posicion c cols).
Proof.
  intros Hin. destruct (posicion c cols) eqn:E; [by eexists|].
  by apply posicion_None in E.
Qed.

Lemma celda_str_idem c : celda_str (celda_str c) = celda_str c.
Proof. by destruct c. Qed.

Lemma celda_en_insert i j x (f : list celda) :
  celda_en j (<[i:=x]> f) =
  if bool_decide (j = i ∧ i < length f) then x else celda_en j f.
Proof.
  unfold celda_en. case_bool_decide as H.
  - destruct H as [-> Hlt]. by rewrite list_lookup_insert_eq.
  - destruct (decide (i = j)) as [->|Hne].
    + rewrite list_insert_ge; [done|]. lia.
    + by rewrite list_lookup_insert_ne.
Qed.

Lemma length_fila_a_texto ps f : length (fila_a_texto ps f) = length f.
Proof.
  revert f. induction ps as [|i ps IH]; intros f; [done|].
  change (fila_a_texto (i :: ps) f)
    with (fila_a_texto ps (<[i := celda_str (celda_en i f)]> f)).
  rewrite IH. apply length_insert.
Qed.

Lemma celda_en_fila_a_texto ps f j :
  celda_en j (fila_a_texto ps f) =
  if bool_decide (j ∈ ps ∧ j < length f) then celda_str (celda_en j f)
  else celda_en j f.
Proof.
  revert f. induction ps as [|i ps IH]; intros f.
  - change (fila_a_texto [] f) with f.
    case_bool_decide as H; [|done].
    destruct H as [H _]. by apply elem_of_nil in H.
  - change (fila_a_texto (i :: ps) f)
      with (fila_a_texto ps (<[i := celda_str (celda_en i f)]> f)).
    rewrite IH, length_insert, celda_en_insert.
    repeat case_bool_decide; try done; set_unfold.
    all: try (exfalso; intuition (subst; eauto; lia)).
    all: intuition subst; by rewrite ?celda_str_idem.
Qed.

Lemma setitem_astype df c i :
  posicion c (columns df) = Some i →
  setitem df c (astype_str (celda_en i <$> filas df)) =
  {| columns := columns df;
     filas := (fun f => <[i := celda_str (celda_en i f)]> f) <$> filas df |}.
Proof.
  intros Hp. unfold setitem, astype_str. rewrite Hp. f_equal.
  by rewrite <- list_fmap_compose, zip_with_fmap_r, zip_with_diag.
Qed.

(** The loop succeeds exactly when every column it visits is there, and
    then it rewrites each row in place. *)
Lemma a_texto_Ok cols df df' :
  a_texto cols df = Ok df' →
  ∃ ps, Forall2 (fun c i => posicion c (columns df) = Some i) cols ps ∧
        df' = {| columns := columns df; filas := fila_a_texto ps <$> filas df |}.
Proof.
  revert df. induction cols as [|c cols IH]; intros df; simpl.
  - intros [= <-]. exists []. split; [constructor|].
    destruct df; simpl. f_equal. by rewrite list_fmap_id.
  - unfold getitem. destruct (posicion c (columns df)) as [i|] eqn:Hp; [|done].
    simpl. rewrite (setitem_astype _ _ _ Hp). intros H.
    apply IH in H as (ps & Hall & ->). simpl in *.
    exists (i :: ps). split; [by constructor|].
    f_equal. rewrite <- list_fmap_compose. done.
Qed.



Lemma completa_spec cols f :
  completa cols f = true ↔ ∀ i, i < length cols → celda_en i f ≠ None.
Proof.
  unfold completa. rewrite forallb_forall. split.
  - intros H i Hi. specialize (H i).
    rewrite bool_decide_eq_true in H.
    assert (is_Some (celda_en i f)) as [v ->]; [|done].
    apply H, in_seq. lia.
  - intros H i Hi%in_seq. apply bool_decide_eq_true.
    destruct (celda_en i f) eqn:E; [by eexists|].
    exfalso. apply (H i); [lia | done].
Qed.

Lemma completa_length cols f : completa cols f = true → length cols ≤ length f.
Proof.
  rewrite completa_spec. intros H.
  destruct (decide (length cols ≤ length f)) as [|Hn]; [done|].
  exfalso. apply (H (length f)); [lia|].
  unfold celda_en. by rewrite lookup_ge_None_2.
Qed.

Lemma cargar_datos_Ok analizar contenido df :
  cargar_datos analizar contenido = Ok df →
  ∃ crudo ps,
    read_csv analizar contenido = Ok crudo ∧
    Forall2 (fun c i => posicion c (columns crudo) = Some i) columnas_str ps ∧
    df = {| columns := columns crudo;
            filas := fila_a_texto ps <$>
                       List.filter (completa (columns crudo)) (filas crudo) |}.
Proof.
  unfold cargar_datos.
  destruct (read_csv analizar contenido) as [crudo|e]; [|done].
  intros H. change (a_texto columnas_str (dropna crudo) = Ok df) in H.
  apply a_texto_Ok in H as (ps & Hall & ->).
  by exists crudo, ps.
Qed.

Lemma posiciones_categoricas cols cs ps j :
  Forall2 (fun c i => posicion c cols = Some i) cs ps →
  j ∈ ps ↔ Exists (fun c => posicion c cols = Some j) cs.
Proof.
  induction 1 as [|c i cs ps Hc _ IH].
  - rewrite Exists_nil. apply elem_of_nil.
  - rewrite elem_of_cons, Exists_cons, IH. split.
    + intros [->|?]; [by left | by right].
    + intros [?|?]; [left; congruence | by right].
Qed.

Lemma elem_of_filter_completa cols f l :
  f ∈ List.filter (completa cols) l → f ∈ l ∧ completa cols f = true.
Proof. rewrite list_elem_of_In, filter_In, <- list_elem_of_In. done. Qed.

(** What the loader leaves in a row it keeps. *)
Lemma fila_a_texto_coaccionada cols ps f :
  Forall2 (fun c i => posicion c cols = Some i) columnas_str ps →
  completa cols f = true →
  coaccionada cols f (fila_a_texto ps f).
Proof.
  intros Hps Hf. split; [apply length_fila_a_texto|].
  intros j. rewrite celda_en_fila_a_texto. unfold es_categorica.
  pose proof (completa_length _ _ Hf) as Hlen.
  rewrite completa_spec in Hf.
  case_bool_decide as H1; case_bool_decide as H2; try done.
  - destruct H1 as [_ Hj]. specialize (Hf j).
    destruct (celda_en j f) eqn:E; [done|].
    apply Exists_exists in H2 as (c & _ & Hc%posicion_lt).
    exfalso. by apply Hf.
  - exfalso. apply H2. destruct H1 as [H1 _].
    by apply (posiciones_categoricas _ _ _ j Hps).
  - exfalso. apply H1.
    pose proof H2 as (c & _ & Hc%posicion_lt)%Exists_exists.
    split; [by apply (posiciones_categoricas _ _ _ j Hps) | lia].
Qed.

Lemma cargar_datos_limpio analizar contenido df :
  cargar_datos analizar contenido = Ok df → limpio df.
Proof.
  intros (crudo & ps & _ & Hps & ->)%cargar_datos_Ok. split; simpl.
  - rewrite Forall_fmap, Forall_forall. intros f [_ Hf]%elem_of_filter_completa i Hi.
    simpl. destruct (fila_a_texto_coaccionada _ _ _ Hps Hf) as [_ Hc].
    rewrite Hc. rewrite completa_spec in Hf. specialize (Hf i Hi).
    destruct (celda_en i f); [|done]. by destruct (es_categorica _ _).
  - intros c Hc.
    assert (∃ i, posicion c (columns crudo) = Some i ∧ i ∈ ps) as (i & Hi & Hin).
    { clear -Hps Hc. induction Hps as [|c' i cs ps' Hc' _ IH].
      - by apply elem_of_nil in Hc.
      - apply elem_of_cons in Hc as [->|Hc].
        + exists i. split; [done | by left].
        + destruct (IH Hc) as (k & ? & ?). exists k. split; [done | by right]. }
    exists i. split; [done|].
    rewrite Forall_fmap, Forall_forall. intros f [_ Hf]%elem_of_filter_completa.
    simpl. destruct (fila_a_texto_coaccionada _ _ _ Hps Hf) as [_ Hco].
    rewrite Hco. unfold es_categorica. rewrite bool_decide_eq_true_2.
    + rewrite completa_spec in Hf. specialize (Hf i (posicion_lt _ _ _ Hi)).
      destruct (celda_en i f); [by eexists | done].
    + by apply (posiciones_categoricas _ _ _ i Hps).
Qed.

(** C1. The loader keeps exactly the rows of the table read from the file
    that have no missing cell under any column, in their order; a kept
    row is the input row with its categorical cells turned into text and
    nothing else changed, and no cell of a kept row is missing. *)
Theorem cargar_datos_filas_completas analizar contenido df :
  cargar_datos analizar contenido = Ok df →
  ∃ crudo,
    read_csv analizar contenido = Ok crudo ∧
    columns df = columns crudo ∧
    Forall2 (coaccionada (columns crudo))
            (List.filter (completa (columns crudo)) (filas crudo)) (filas df) ∧
    (∀ f, completa (columns crudo) f = true ↔
          ∀ i, i < length (columns crudo) → celda_en i f ≠ None) ∧
    Forall (fun f => ∀ i, i < length (columns df) → celda_en i f ≠ None) (filas df).
Proof.
  intros H. pose proof (cargar_datos_limpio _ _ _ H) as [Hlimpio _].
  apply cargar_datos_Ok in H as (crudo & ps & Hread & Hps & ->).
  exists crudo. split; [done|]. split; [done|]. split; [|split; [|done]].
  - simpl. apply Forall2_fmap_r, Forall_Forall2_diag, Forall_forall.
    intros f [_ Hf]%elem_of_filter_completa.
    by apply fila_a_texto_coaccionada.
  - intros f. apply completa_spec.
Qed.

(** The byte-order mark is optional, and dropped when it is there. *)
Example bom_opcional :
  decode_utf8_sig (xef :: xbb :: xbf :: list_byte_of_string "a,b") = Some "a,b" ∧
  decode_utf8_sig (list_byte_of_string "a,b") = Some "a,b" ∧
  decode_utf8_sig (list_byte_of_string col_anio) = Some col_anio ∧
  decode_utf8_sig archivo_latin1 = None.
Proof. repeat split. Qed.

Example cargar_datos_ejemplo :
  cargar_datos csv_sencillo archivo_ejemplo = Ok df_ejemplo.
Proof. vm_compute. reflexivity. Qed.

Lemma cargar_datos_filas_completas_witness :
  ∃ crudo,
    read_csv csv_sencillo archivo_ejemplo = Ok crudo ∧
    columns df_ejemplo = columns crudo ∧
    Forall2 (coaccionada (columns crudo))
            (List.filter (completa (columns crudo)) (filas crudo)) (filas df_ejemplo) ∧
    (∀ f, completa (columns crudo) f = true ↔
          ∀ i, i < length (columns crudo) → celda_en i f ≠ None) ∧
    Forall (fun f => ∀ i, i < length (columns df_ejemplo) → celda_en i f ≠ None)
           (filas df_ejemplo).
Proof.
  apply (cargar_datos_filas_completas csv_sencillo archivo_ejemplo df_ejemplo).
  vm_compute. reflexivity.
Defined.




(** ** Counting and grouping *)

Section Agrupar_props.
Context {A : Type} `{EqDecision A}.
Implicit Types (x y : A) (l ks : list A).

Lemma contar_cons x y l :
  contar x (y :: l) = (if decide (y = x) then 1 else 0) + contar x l.
Proof. unfold contar. rewrite filter_cons. by case_decide. Qed.

Lemma contar_pos x l : x ∈ l ↔ 0 < contar x l.
Proof.
  induction l as [|y l IH].
  - split; [by intros ?%elem_of_nil | unfold contar; simpl; lia].
  - rewrite contar_cons, elem_of_cons. case_decide; subst.
    + split; [lia | by left].
    + rewrite IH. split; [intros [?|?]; [congruence | lia] | right; lia].
Qed.

Lemma contar_ausente x l : x ∉ l → contar x l = 0.
Proof. rewrite contar_pos. lia. Qed.

Lemma contar_perm x l1 l2 : l1 ≡ₚ l2 → contar x l1 = contar x l2.
Proof. intros H. unfold contar. by rewrite H. Qed.

Lemma filter_comm (P1 P2 : A → Prop)
    `{!∀ y, Decision (P1 y), !∀ y, Decision (P2 y)} l :
  filter P1 (filter P2 l) = filter P2 (filter P1 l).
Proof.
  rewrite !list_filter_filter. apply list_filter_iff.
  intros y. split; intros [? ?]; by split.
Qed.

Lemma contar_filter (P : A → Prop) `{!∀ y, Decision (P y)} x l :
  P x → contar x (filter P l) = contar x l.
Proof.
  intros HP. unfold contar. rewrite list_filter_filter_l; [done|].
  by intros y ->.
Qed.

Lemma elem_of_unique x l : x ∈ unique l ↔ x ∈ l.
Proof.
  induction l as [|y l IH]; simpl; [done|].
  rewrite !elem_of_cons, list_elem_of_filter, IH.
  destruct (decide (x = y)); tauto.
Qed.

Lemma NoDup_unique l : NoDup (unique l).
Proof.
  induction l as [|y l IH]; simpl; [constructor|].
  constructor; [|by apply NoDup_filter].
  rewrite list_elem_of_filter. tauto.
Qed.

Lemma unique_filter (P : A → Prop) `{!∀ y, Decision (P y)} l :
  unique (filter P l) = filter P (unique l).
Proof.
  induction l as [|y l IH]; simpl; [done|].
  rewrite !filter_cons. case_decide as HP; simpl.
  - by rewrite IH, filter_comm.
  - rewrite IH. symmetry. apply list_filter_filter_l.
    intros x Hx ->. done.
Qed.

Lemma sum_list_with_ext {B} (f g : B → nat) (t : list B) :
  (∀ b, f b = g b) → sum_list_with f t = sum_list_with g t.
Proof. intros E. induction t as [|b t IH]; simpl; [done|]. by rewrite E, IH. Qed.

Lemma sum_list_with_fmap {B C} (f : C → nat) (g : B → C) (t : list B) :
  sum_list_with f (g <$> t) = sum_list_with (fun b => f (g b)) t.
Proof. induction t as [|b t IH]; simpl; [done|]. f_equal. apply IH. Qed.

Lemma sum_list_with_suma {B} (f g : B → nat) (t : list B) :
  sum_list_with (fun b => f b + g b) t = sum_list_with f t + sum_list_with g t.
Proof. induction t as [|b t IH]; simpl; lia. Qed.

Lemma sum_indicador y ks :
  NoDup ks → y ∈ ks →
  sum_list_with (fun k => if decide (y = k) then 1 else 0) ks = 1.
Proof.
  induction 1 as [|k ks Hk _ IH]; [by intros ?%elem_of_nil|].
  simpl. intros [->|Hy]%elem_of_cons.
  - rewrite decide_True by done.
    assert (sum_list_with (fun k0 => if decide (k = k0) then 1 else 0) ks = 0) as ->; [|done].
    clear IH. induction ks as [|z ks IH]; simpl; [done|].
    rewrite not_elem_of_cons in Hk. destruct Hk.
    rewrite decide_False by done. by rewrite IH.
  - rewrite decide_False by (intros ->; done). by rewrite IH.
Qed.

(** The sizes of the groups add up to the number of elements. *)
Lemma sum_contar ks l :
  NoDup ks → (∀ x, x ∈ l → x ∈ ks) →
  sum_list_with (fun k => contar k l) ks = length l.
Proof.
  intros Hnd. induction l as [|y l IH]; intros Hin.
  - clear. induction ks as [|k ks IHk]; [done|]. exact IHk.
  - rewrite (sum_list_with_ext _
               (fun k => (if decide (y = k) then 1 else 0) + contar k l))
      by (intros k; apply contar_cons).
    rewrite sum_list_with_suma, sum_indicador, IH; [done | | done |].
    + intros x Hx. apply Hin. by right.
    + apply Hin. by left.
Qed.

Lemma sum_grupos l : sum_list_with snd (grupos l) = length l.
Proof.
  unfold grupos. rewrite sum_list_with_fmap. simpl.
  apply sum_contar; [apply NoDup_unique|].
  intros x. by rewrite elem_of_unique.
Qed.

Lemma elem_of_grupos k n l : (k, n) ∈ grupos l ↔ k ∈ l ∧ n = contar k l.
Proof.
  unfold grupos. rewrite list_elem_of_fmap. split.
  - intros (x & [= -> ->] & Hx). by rewrite elem_of_unique in Hx.
  - intros [Hk ->]. exists k. by rewrite elem_of_unique.
Qed.

Lemma NoDup_grupos l : NoDup (fst <$> grupos l).
Proof.
  unfold grupos. rewrite <- list_fmap_compose.
  rewrite (list_fmap_ext _ id (unique l)) by done.
  rewrite list_fmap_id. apply NoDup_unique.
Qed.

(** Entries of a table whose keys are distinct are found by [buscar]. *)
Lemma buscar_Some {B} k (b : B) (t : list (A * B)) :
  NoDup (fst <$> t) → (k, b) ∈ t → buscar k t = Some b.
Proof.
  induction t as [|[k' b'] t IH]; simpl; [by intros _ ?%elem_of_nil|].
  intros [Hk Hnd]%NoDup_cons [[= -> ->]|Hin]%elem_of_cons.
  - by rewrite decide_True.
  - case_decide as E; [|by apply IH]. subst. exfalso. apply Hk.
    apply list_elem_of_fmap. by exists (k', b).
Qed.

Lemma buscar_None {B} k (t : list (A * B)) :
  k ∉ fst <$> t → buscar k t = None.
Proof.
  induction t as [|[k' b'] t IH]; simpl; [done|].
  rewrite not_elem_of_cons. intros [Hne Hk].
  rewrite decide_False by done. by apply IH.
Qed.

Lemma primera_is_Some x l : x ∈ l → is_Some (primera x l).
Proof.
  induction l as [|y l IH]; simpl; [by intros ?%elem_of_nil|].
  intros [->|Hx]%elem_of_cons.
  - rewrite decide_True by done. by eexists.
  - case_decide; [by eexists|]. destruct (IH Hx) as [i ->]. by eexists.
Qed.

Lemma StronglySorted_impl_elem (R R' : A → A → Prop) l :
  StronglySorted R l →
  (∀ a b, a ∈ l → b ∈ l → R a b → R' a b) →
  StronglySorted R' l.
Proof.
  induction 1 as [|a l Hs IH Hall]; intros Himp; constructor.
  - apply IH. intros ????. apply Himp; by right.
  - rewrite Forall_forall in Hall |- *. intros b Hb.
    apply Himp; [by left | by right | by apply Hall].
Qed.

Lemma StronglySorted_filter (R : A → A → Prop) (P : A → Prop)
    `{!∀ y, Decision (P y)} l :
  StronglySorted R l → StronglySorted R (filter P l).
Proof.
  induction 1 as [|a l Hs IH Hall]; [constructor|].
  rewrite filter_cons. case_decide; [|done].
  constructor; [done|]. rewrite Forall_forall in Hall |- *.
  intros b [_ Hb]%list_elem_of_filter. by apply Hall.
Qed.

Lemma unique_antes l : StronglySorted (antes l) (unique l).
Proof.
  induction l as [|x l IH]; simpl; [constructor|].
  constructor.
  - apply (StronglySorted_impl_elem (antes l)).
    + by apply StronglySorted_filter.
    + intros a b [Ha _]%list_elem_of_filter [Hb _]%list_elem_of_filter.
      intros (i & j & Hi & Hj & Hij). exists (S i), (S j). simpl.
      rewrite !decide_False, Hi, Hj by done. repeat split; [done..|lia].
  - rewrite Forall_forall.
    intros b [Hne Hb]%list_elem_of_filter. rewrite elem_of_unique in Hb.
    destruct (primera_is_Some _ _ Hb) as [j Hj].
    exists 0, (S j). simpl. rewrite decide_True, decide_False, Hj by done.
    repeat split; [done..|lia].
Qed.
End Agrupar_props.

(** ** Ordering *)

Section Ordenar_props.
Context {A : Type} (leb : A → A → bool).
Implicit Types (x y : A) (l : list A).

Lemma insertar_perm x l : insertar leb x l ≡ₚ x :: l.
Proof.
  induction l as [|y l IH]; simpl; [done|].
  destruct (leb x y); [done|]. rewrite IH. apply Permutation_swap.
Qed.

Lemma elem_of_insertar z x l : z ∈ insertar leb x l → z = x ∨ z ∈ l.
Proof. rewrite insertar_perm. apply elem_of_cons. Qed.

Lemma ordenar_perm l : ordenar leb l ≡ₚ l.
Proof.
  induction l as [|y l IH]; simpl; [done|].
  fold (ordenar leb l). by rewrite insertar_perm, IH.
Qed.

Lemma elem_of_ordenar x l : x ∈ ordenar leb l ↔ x ∈ l.
Proof. by rewrite ordenar_perm. Qed.

Lemma length_ordenar l : length (ordenar leb l) = length l.
Proof. by rewrite ordenar_perm. Qed.

Lemma NoDup_ordenar l : NoDup l → NoDup (ordenar leb l).
Proof. by rewrite ordenar_perm. Qed.

(** A list already in order is left as it is. *)
Lemma ordenar_id l :
  StronglySorted (fun a b => leb a b = true) l → ordenar leb l = l.
Proof.
  induction 1 as [|a l Hs IH Hall]; simpl; [done|].
  fold (ordenar leb l). rewrite IH.
  destruct l as [|b l]; simpl; [done|].
  apply Forall_cons in Hall as [-> _]. done.
Qed.

Section Total.
Hypothesis leb_total : ∀ a b, leb a b = true ∨ leb b a = true.
Hypothesis leb_trans : ∀ a b c, leb a b = true → leb b c = true → leb a c = true.

Lemma insertar_estable (Q : A → A → Prop) x l :
  StronglySorted (en_orden leb Q) l → Forall (Q x) l →
  StronglySorted (en_orden leb Q) (insertar leb x l).
Proof.
  induction 1 as [|y l Hs IH Hall]; intros HQ; simpl.
  - repeat constructor.
  - apply Forall_cons in HQ as [HQy HQ].
    destruct (leb x y) eqn:E.
    + constructor; [by constructor|].
      constructor; [by split|].
      rewrite Forall_forall in Hall, HQ |- *. intros z Hz. split.
      * destruct (Hall z Hz) as [Hyz _]. by eapply leb_trans.
      * intros _. by apply HQ.
    + constructor; [by apply IH|].
      rewrite Forall_forall in Hall |- *.
      intros z [->|Hz]%elem_of_insertar; [|by apply Hall].
      split; [|by rewrite E].
      destruct (leb_total x y) as [H|H]; [congruence | done].
Qed.

Lemma ordenar_estable (Q : A → A → Prop) l :
  StronglySorted Q l → StronglySorted (en_orden leb Q) (ordenar leb l).
Proof.
  induction 1 as [|a l Hs IH Hall]; simpl; [constructor|].
  fold (ordenar leb l). apply insertar_estable; [done|].
  rewrite Forall_forall in Hall |- *.
  intros z Hz. rewrite elem_of_ordenar in Hz. by apply Hall.
Qed.

Lemma ordenar_sorted l :
  StronglySorted (fun a b => leb a b = true) (ordenar leb l).
Proof.
  induction l as [|a l IH]; simpl; [constructor|].
  fold (ordenar leb l). revert IH. generalize (ordenar leb l) as s.
  induction 1 as [|y s Hs IH Hall]; simpl; [repeat constructor|].
  destruct (leb a y) eqn:E.
  - constructor; [by constructor|]. constructor; [done|].
    rewrite Forall_forall in Hall |- *. intros z Hz.
    eapply leb_trans; [exact E | by apply Hall].
  - constructor; [done|].
    rewrite Forall_forall in Hall |- *.
    intros z [->|Hz]%elem_of_insertar; [|by apply Hall].
    destruct (leb_total a y) as [H|H]; [congruence | done].
Qed.
End Total.
End Ordenar_props.

(** ** The order of the keys *)

Lemma string_leb_trans (a b c : string) :
  String.leb a b = true → String.leb b c = true → String.leb a c = true.
Proof.
  unfold String.leb. revert b c.
  induction a as [|x a IH]; intros [|y b] [|z c]; simpl; try done.
  unfold Ascii.compare.
  destruct (N.compare_spec (N_of_ascii x) (N_of_ascii y)) as [Exy|Hxy|Hxy];
    destruct (N.compare_spec (N_of_ascii y) (N_of_ascii z)) as [Eyz|Hyz|Hyz];
    destruct (N.compare_spec (N_of_ascii x) (N_of_ascii z)) as [Exz|Hxz|Hxz];
    try done; try lia.
  apply IH.
Qed.

Lemma valor_leb_total a b : valor_leb a b = true ∨ valor_leb b a = true.
Proof.
  destruct a as [s|n|x], b as [s'|n'|y]; simpl; auto.
  - apply String.leb_total.
  - destruct (Z.leb_spec n n'); [by left|]. right. apply Z.leb_le. lia.
  - destruct x, y; auto.
Qed.

Lemma valor_leb_trans a b c :
  valor_leb a b = true → valor_leb b c = true → valor_leb a c = true.
Proof.
  destruct a as [s|n|x], b as [s'|n'|y], c as [s''|n''|z]; simpl; try done.
  - apply string_leb_trans.
  - rewrite !Z.leb_le. lia.
  - by destruct x, y, z.
Qed.

Lemma valor_leb_antisym a b :
  valor_leb a b = true → valor_leb b a = true → a = b.
Proof.
  destruct a as [s|n|x], b as [s'|n'|y]; simpl; try done.
  - intros H1 H2. f_equal. by apply String.leb_antisym.
  - rewrite !Z.leb_le. intros. f_equal. lia.
  - by destruct x, y.
Qed.

Lemma valor_lt_int (x y : Z) : valor_lt (VInt x) (VInt y) ↔ (x < y)%Z.
Proof.
  unfold valor_lt. simpl. rewrite Z.leb_le. split.
  - intros [Hle Hne]. destruct (decide (x = y)) as [->|]; [done | lia].
  - intros Hlt. split; [lia|]. intros [= ->]. lia.
Qed.

Lemma par_leb_total a b : par_leb a b = true ∨ par_leb b a = true.
Proof.
  unfold par_leb. destruct a as [a1 a2], b as [b1 b2]; simpl.
  repeat case_decide; subst; try done; apply valor_leb_total.
Qed.

Lemma par_leb_trans a b c :
  par_leb a b = true → par_leb b c = true → par_leb a c = true.
Proof.
  unfold par_leb. destruct a as [a1 a2], b as [b1 b2], c as [c1 c2]; simpl.
  repeat case_decide; subst; try done.
  - apply valor_leb_trans.
  - intros H1 H2. exfalso. by pose proof (valor_leb_antisym _ _ H1 H2).
  - apply valor_leb_trans.
Qed.

Lemma par_leb_antisym a b :
  par_leb a b = true → par_leb b a = true → a = b.
Proof.
  unfold par_leb. destruct a as [a1 a2], b as [b1 b2]; simpl.
  repeat case_decide; subst; try done.
  - intros H1 H2. f_equal. by apply valor_leb_antisym.
  - intros H1 H2. exfalso. by pose proof (valor_leb_antisym _ _ H1 H2).
Qed.

(** A list in order and without repetition is strictly increasing. *)
Lemma estrictamente_creciente (l : list valor) :
  NoDup l → StronglySorted (fun a b => valor_leb a b = true) l →
  StronglySorted valor_lt l.
Proof.
  intros Hnd Hs. induction Hs as [|a l Hs IH Hall]; [constructor|].
  apply NoDup_cons in Hnd as [Ha Hnd]. constructor; [by apply IH|].
  rewrite Forall_forall in Hall |- *. intros b Hb.
  split; [by apply Hall|]. by intros ->.
Qed.

(** ** Series and selections *)

Lemma getitem_Ok df c :
  c ∈ columns df →
  ∃ i, posicion c (columns df) = Some i ∧
       getitem df c = Ok (celda_en i <$> filas df).
Proof.
  intros [i Hi]%posicion_is_Some. exists i. split; [done|].
  unfold getitem. by rewrite Hi.
Qed.

Lemma getitem_inv df c s :
  getitem df c = Ok s →
  ∃ i, posicion c (columns df) = Some i ∧ s = celda_en i <$> filas df.
Proof.
  unfold getitem. destruct (posicion c (columns df)) as [i|]; [|done].
  intros [= <-]. by exists i.
Qed.

Lemma seleccionar_filter cols rows (P : celda → Prop) `{!∀ x, Decision (P x)} i :
  seleccionar {| columns := cols; filas := rows |}
              ((fun x => bool_decide (P x)) <$> (celda_en i <$> rows)) =
  {| columns := cols;
     filas := filter (fun f => P (celda_en i f)) rows |}.
Proof.
  unfold seleccionar. cbn. f_equal.
  induction rows as [|f l IH]; [done|].
  rewrite filter_cons. cbn. case_bool_decide; case_decide; try done; cbn.
  f_equal. apply IH.
Qed.

Lemma fmap_filter_celda (P : celda → Prop) `{!∀ x, Decision (P x)} i
    (l : list (list celda)) :
  celda_en i <$> filter (fun f => P (celda_en i f)) l =
  filter P (celda_en i <$> l).
Proof.
  induction l as [|f l IH]; [done|].
  rewrite fmap_cons, !filter_cons. case_decide; [|done].
  rewrite fmap_cons. f_equal. apply IH.
Qed.

(** The column [c] of [df[df[c] != v]]. *)
Lemma getitem_ne df c v s :
  getitem df c = Ok s →
  getitem (seleccionar df (ne s v)) c = Ok (filter (fun x => x ≠ Some v) s).
Proof.
  intros (i & Hi & ->)%getitem_inv. unfold ne. destruct df as [cols rows]. cbn in *.
  rewrite (seleccionar_filter cols rows (fun x => x ≠ Some v)).
  unfold getitem. cbn. rewrite Hi. f_equal.
  exact (fmap_filter_celda (fun x => x ≠ Some v) i rows).
Qed.

Lemma elem_of_dropna_s k s : k ∈ dropna_s s ↔ Some k ∈ s.
Proof.
  unfold dropna_s. rewrite list_elem_of_omap. split.
  - intros (x & Hx & E). simpl in E. by subst.
  - intros H. by exists (Some k).
Qed.

Lemma contar_dropna_s k s : contar k (dropna_s s) = contar (Some k) s.
Proof.
  induction s as [|[x|] s IH]; [done| |].
  - change (dropna_s (Some x :: s)) with (x :: dropna_s s).
    rewrite !contar_cons, IH.
    destruct (decide (x = k)); [by rewrite decide_True by congruence|].
    by rewrite decide_False by congruence.
  - change (dropna_s (None :: s)) with (dropna_s s).
    by rewrite contar_cons, IH, decide_False.
Qed.

Lemma dropna_s_filter v s :
  dropna_s (filter (fun x => x ≠ Some v) s) = filter (fun y => y ≠ v) (dropna_s s).
Proof.
  induction s as [|[x|] s IH]; [done| |].
  - change (dropna_s (Some x :: s)) with (x :: dropna_s s).
    rewrite !filter_cons. destruct (decide (x = v)) as [->|Hne].
    + by rewrite decide_False, decide_False by (intros ?; congruence).
    + rewrite decide_True, decide_True by congruence.
      change (dropna_s (Some x :: ?l)) with (x :: dropna_s l).
      by rewrite <- IH.
  - rewrite filter_cons, decide_True by done.
    change (dropna_s (None :: ?l)) with (dropna_s l). apply IH.
Qed.

(** A series without missing cells. *)
Lemma length_dropna_s s : None ∉ s → length (dropna_s s) = length s.
Proof.
  induction s as [|[x|] s IH]; [done| |].
  - rewrite not_elem_of_cons. intros [_ H]. simpl. f_equal. by apply IH.
  - rewrite not_elem_of_cons. by intros [? _].
Qed.

Lemma length_filter_contar {A} `{EqDecision A} (x : A) (l : list A) :
  length l = length (filter (fun y => y ≠ x) l) + contar x l.
Proof.
  induction l as [|y l IH]; [done|].
  rewrite contar_cons, filter_cons. simpl.
  destruct (decide (y = x)) as [->|Hne].
  - rewrite decide_False by (intros ?; done). lia.
  - rewrite decide_True by done. simpl. lia.
Qed.

(** ** The counts of a column *)

Lemma mas_frecuente_total a b :
  mas_frecuente a b = true ∨ mas_frecuente b a = true.
Proof. unfold mas_frecuente. rewrite !Nat.leb_le. lia. Qed.

Lemma mas_frecuente_trans a b c :
  mas_frecuente a b = true → mas_frecuente b c = true → mas_frecuente a c = true.
Proof. unfold mas_frecuente. rewrite !Nat.leb_le. lia. Qed.

Lemma elem_of_value_counts k n s :
  (k, n) ∈ value_counts s ↔ Some k ∈ s ∧ n = contar (Some k) s.
Proof.
  unfold value_counts.
  by rewrite elem_of_ordenar, elem_of_grupos, elem_of_dropna_s, contar_dropna_s.
Qed.

Lemma NoDup_value_counts s : NoDup (fst <$> value_counts s).
Proof.
  unfold value_counts. rewrite ordenar_perm. apply NoDup_grupos.
Qed.

Lemma suma_value_counts s : suma (value_counts s) = length (dropna_s s).
Proof. unfold suma, value_counts. rewrite ordenar_perm. apply sum_grupos. Qed.

Lemma buscar_value_counts v s :
  default 0 (buscar v (value_counts s)) = contar (Some v) s.
Proof.
  destruct (decide (Some v ∈ s)) as [Hin|Hnot].
  - rewrite (buscar_Some v (contar (Some v) s)); [done | |].
    + apply NoDup_value_counts.
    + by apply elem_of_value_counts.
  - rewrite buscar_None, contar_ausente; [done..|].
    intros ([k n] & -> & [H _]%elem_of_value_counts)%list_elem_of_fmap. done.
Qed.

Lemma limpio_getitem df c :
  limpio df → c ∈ columns df →
  ∃ s, getitem df c = Ok s ∧ length s = len df ∧ None ∉ s.
Proof.
  intros [H _] [i Hi]%posicion_is_Some.
  exists (celda_en i <$> filas df). unfold getitem. rewrite Hi.
  split; [done|]. split; [apply length_fmap|].
  intros (f & Hf & Hin)%list_elem_of_fmap.
  rewrite Forall_forall in H.
  apply (H f Hin i); [by eapply posicion_lt | done].
Qed.

Lemma conteo_sin_Ok df c v s :
  getitem df c = Ok s →
  conteo_sin c v df = Ok (value_counts (filter (fun x => x ≠ Some v) s)).
Proof.
  intros H. unfold conteo_sin. rewrite H. cbn.
  by rewrite (getitem_ne _ _ _ _ H).
Qed.

(** C2. On a loaded dataset and for each of its columns, the counts of
    [value_counts] add up to the number of rows; the counts computed
    without the rows that hold [v] add up to the number of rows whose
    value is not [v]; and adding to them the count that the unfiltered
    view gives for [v] yields the unfiltered total. *)
Theorem conteos_reconcilian analizar contenido df c v :
  cargar_datos analizar contenido = Ok df →
  c ∈ columns df →
  ∃ s t t',
    getitem df c = Ok s ∧ length s = len df ∧
    t = value_counts s ∧
    conteo_sin c v df = Ok t' ∧
    suma t = len df ∧
    suma t' = length (filter (fun x => x ≠ Some v) s) ∧
    suma t' + default 0 (buscar v t) = suma t.
Proof.
  intros Hdf Hc. apply cargar_datos_limpio in Hdf.
  destruct (limpio_getitem df c Hdf Hc) as (s & Hs & Hlen & Hnn).
  exists s, (value_counts s), (value_counts (filter (fun x => x ≠ Some v) s)).
  split; [done|]. split; [done|]. split; [done|].
  split; [by apply conteo_sin_Ok|].
  rewrite !suma_value_counts, buscar_value_counts.
  rewrite (length_dropna_s s Hnn). split; [done|]. split.
  - apply length_dropna_s. rewrite list_elem_of_filter. tauto.
  - rewrite dropna_s_filter, <- contar_dropna_s.
    rewrite <- (length_dropna_s s Hnn). symmetry. apply length_filter_contar.
Qed.

Lemma conteos_reconcilian_witness :
  ∃ s t t',
    getitem df_ejemplo col_razon = Ok s ∧ length s = len df_ejemplo ∧
    t = value_counts s ∧
    conteo_sin col_razon sin_informacion df_ejemplo = Ok t' ∧
    suma t = len df_ejemplo ∧
    suma t' = length (filter (fun x => x ≠ Some sin_informacion) s) ∧
    suma t' + default 0 (buscar sin_informacion t) = suma t.
Proof.
  apply (conteos_reconcilian csv_sencillo archivo_ejemplo).
  - vm_compute. reflexivity.
  - por_calculo.
Defined.

(** Four rows, two without a reported reason: the reported ones add up
    to 2, and 2 + 2 is the number of rows. *)
Example conteos_ejemplo :
  df_razones df_ejemplo =
    Ok [(VStr "Sin informacion", 2); (VStr "Desamor", 1); (VStr "Economicas", 1)] ∧
  conteo_sin col_razon sin_informacion df_ejemplo =
    Ok [(VStr "Desamor", 1); (VStr "Economicas", 1)] ∧
  len df_ejemplo = 4.
Proof. repeat split; vm_compute; reflexivity. Qed.

Example conteo_sexo :
  value_counts [Some (VStr "Hombre"); Some (VStr "Hombre"); Some (VStr "Hombre");
                Some (VStr "Mujer")]
  = [(VStr "Hombre", 3); (VStr "Mujer", 1)].
Proof. reflexivity. Qed.

(** ** Views by group *)

Lemma value_counts_pos s : Forall (fun e => 1 ≤ e.2) (value_counts s).
Proof.
  rewrite Forall_forall. intros [k n] [Hin ->]%elem_of_value_counts.
  apply contar_pos in Hin. simpl. lia.
Qed.

Lemma conteo_de_claves_pos {A} `{EqDecision A} (ks l : list A) :
  (∀ k, k ∈ ks → k ∈ l) →
  Forall (fun e => 1 ≤ e.2) ((fun k => (k, contar k l)) <$> ks).
Proof.
  intros Hsub. rewrite Forall_fmap, Forall_forall. intros k Hk. simpl.
  apply Hsub, contar_pos in Hk. lia.
Qed.

Lemma groupby_size_pos s : Forall (fun e => 1 ≤ e.2) (groupby_size s).
Proof.
  apply conteo_de_claves_pos. intros k.
  by rewrite elem_of_ordenar, elem_of_unique.
Qed.

Lemma groupby2_size_pos s1 s2 : Forall (fun e => 1 ≤ e.2) (groupby2_size s1 s2).
Proof.
  apply conteo_de_claves_pos. intros k.
  by rewrite elem_of_ordenar, elem_of_unique.
Qed.

Lemma sort_values_pos t :
  Forall (fun e => 1 ≤ e.2) t → Forall (fun e => 1 ≤ e.2) (sort_values t).
Proof.
  rewrite !Forall_forall. intros H e He. apply H.
  unfold sort_values in He. by rewrite elem_of_ordenar in He.
Qed.

Lemma requeridas_presentes df :
  Forall (fun c => c ∈ columns df) columnas_requeridas →
  col_anio ∈ columns df ∧ col_depto ∈ columns df ∧ col_ciclo ∈ columns df ∧
  col_sexo ∈ columns df ∧ col_escenario ∈ columns df ∧
  col_mecanismo ∈ columns df ∧ col_razon ∈ columns df.
Proof.
  unfold columnas_requeridas, columnas_str. rewrite !Forall_cons. tauto.
Qed.

(** ** The filtered reasons *)

Lemma filter_todos {A} (P : A → Prop) `{!∀ x, Decision (P x)} (l : list A) :
  (∀ x, P x) → filter P l = l.
Proof.
  intros HP. induction l as [|x l IH]; [done|].
  rewrite filter_cons_True by done. by rewrite IH.
Qed.

(** [df[df[c] == v]] *)
Lemma seleccionar_eq df c v i :
  posicion c (columns df) = Some i →
  (s ← getitem df c; mret (seleccionar df (eq_ s v))) =
  Ok {| columns := columns df;
        filas := filter (fun f => celda_en i f = Some v) (filas df) |}.
Proof.
  intros Hi. unfold getitem, eq_. rewrite Hi. destruct df as [cols rows].
  cbn [mbind resultado_bind columns filas].
  by rewrite (seleccionar_filter cols rows (fun x => x = Some v)).
Qed.

Lemma df_filtrado_Ok df ciclo genero i j :
  posicion col_ciclo (columns df) = Some i →
  posicion col_sexo (columns df) = Some j →
  df_filtrado df ciclo genero =
  Ok {| columns := columns df;
        filas := filter (pasa i j ciclo genero) (filas df) |}.
Proof.
  intros Hi Hj. unfold df_filtrado.
  destruct (decide (ciclo ≠ "Todos")) as [Hc|Hc%dec_stable];
    destruct (decide (genero ≠ "Todos")) as [Hg|Hg%dec_stable].
  - rewrite (seleccionar_eq df col_ciclo _ i Hi).
    cbn [mbind resultado_bind].
    erewrite seleccionar_eq by exact Hj.
    cbn [columns filas]. do 2 f_equal. rewrite list_filter_filter.
    apply list_filter_iff. intros f. unfold pasa. split.
    + intros [? ?]. split; by right.
    + intros [[?|?] [?|?]]; done.
  - rewrite (seleccionar_eq df col_ciclo _ i Hi).
    cbn. do 2 f_equal. apply list_filter_iff. intros f. unfold pasa. split.
    + intros ?. split; [by right | by left].
    + intros [[?|?] _]; done.
  - cbn [mbind resultado_bind mret resultado_ret].
    rewrite (seleccionar_eq df col_sexo _ j Hj).
    do 2 f_equal. apply list_filter_iff. intros f. unfold pasa. split.
    + intros ?. split; [by left | by right].
    + intros [_ [?|?]]; done.
  - cbn. rewrite filter_todos; [by destruct df|]. intros f. split; by left.
Qed.

Lemma contar_fmap {A B} `{EqDecision B} (g : A → B) (x : B) (l : list A) :
  contar x (g <$> l) = length (filter (fun a => g a = x) l).
Proof.
  induction l as [|a l IH]; [done|].
  rewrite fmap_cons, contar_cons, filter_cons.
  case_decide; simpl; by rewrite IH.
Qed.

Create HintDb vistas.
#[local] Hint Resolve value_counts_pos groupby_size_pos groupby2_size_pos
  sort_values_pos : vistas.

Lemma head_pos {K} n (t : list (K * nat)) :
  Forall (fun e => 1 ≤ e.2) t → Forall (fun e => 1 ≤ e.2) (head n t).
Proof. apply Forall_take. Qed.

#[local] Hint Resolve head_pos : vistas.

Ltac vista_devuelta :=
  unfold positivas; eexists; split; [reflexivity | auto with vistas].

Lemma df_razones_dinamico_Ok df incluir ciclo genero i j s :
  posicion col_ciclo (columns df) = Some i →
  posicion col_sexo (columns df) = Some j →
  getitem {| columns := columns df;
             filas := filter (pasa i j ciclo genero) (filas df) |} col_razon = Ok s →
  df_razones_dinamico df incluir ciclo genero =
  Ok (head 10 (value_counts
                 (if incluir then s
                  else filter (fun x => x ≠ Some sin_informacion) s))).
Proof.
  intros Hi Hj Hs. unfold df_razones_dinamico.
  rewrite (df_filtrado_Ok df ciclo genero i j Hi Hj).
  cbn [mbind resultado_bind]. destruct incluir.
  - by rewrite Hs.
  - by rewrite (conteo_sin_Ok _ _ _ _ Hs).
Qed.

(** C10. When the columns the script reads are in the dataset, every
    aggregate view is returned and each of its entries has a size of at
    least one. *)
Theorem conteos_positivos df incluir ciclo genero :
  Forall (fun c => c ∈ columns df) columnas_requeridas →
  positivas (df_ciclo df) ∧ positivas (df_genero df) ∧
  positivas (df_genero_ciclo df) ∧ positivas (df_temporal df) ∧
  positivas (df_depto_anio df) ∧ positivas (df_escenario df) ∧
  positivas (df_mecanismo df) ∧ positivas (df_razones df) ∧
  positivas (df_razones_filtrado df) ∧
  positivas (df_razones_dinamico df incluir ciclo genero).
Proof.
  intros (Ha & Hd & Hc & Hs & He & Hm & Hr)%requeridas_presentes.
  destruct (getitem_Ok _ _ Ha) as (ia & Hia & Ea).
  destruct (getitem_Ok _ _ Hd) as (id & Hid & Ed).
  destruct (getitem_Ok _ _ Hc) as (ic & Hic & Ec).
  destruct (getitem_Ok _ _ Hs) as (iss & His & Es).
  destruct (getitem_Ok _ _ He) as (ie & Hie & Ee).
  destruct (getitem_Ok _ _ Hm) as (im & Him & Em).
  destruct (getitem_Ok _ _ Hr) as (ir & Hir & Er).
  unfold df_ciclo, df_genero, df_genero_ciclo, df_temporal, df_depto_anio,
    df_escenario, df_mecanismo, df_razones, df_razones_filtrado.
  rewrite (conteo_sin_Ok _ _ sin_informacion _ Er).
  rewrite Ea, Ed, Ec, Es, Ee, Em, Er. cbn [mbind resultado_bind fmap resultado_fmap].
  repeat split; try vista_devuelta.
  destruct (getitem_Ok {| columns := columns df;
                          filas := filter (pasa ic iss ciclo genero) (filas df) |}
                       col_razon Hr) as (ir' & _ & Er').
  rewrite (df_razones_dinamico_Ok df incluir ciclo genero ic iss _ Hic His Er').
  vista_devuelta.
Qed.

Lemma conteos_positivos_witness :
  positivas (df_ciclo df_ejemplo) ∧ positivas (df_genero df_ejemplo) ∧
  positivas (df_genero_ciclo df_ejemplo) ∧ positivas (df_temporal df_ejemplo) ∧
  positivas (df_depto_anio df_ejemplo) ∧ positivas (df_escenario df_ejemplo) ∧
  positivas (df_mecanismo df_ejemplo) ∧ positivas (df_razones df_ejemplo) ∧
  positivas (df_razones_filtrado df_ejemplo) ∧
  positivas (df_razones_dinamico df_ejemplo false "Adultez" "Todos").
Proof.
  apply (conteos_positivos df_ejemplo false "Adultez" "Todos").
  por_calculo.
Defined.

Example cruce_ejemplo :
  df_genero_ciclo df_ejemplo =
  Ok [(VStr "Adultez", VStr "Hombre", 3); (VStr "Juventud", VStr "Mujer", 1)].
Proof. vm_compute. reflexivity. Qed.

(** ** The yearly series *)

Lemma claves_groupby s :
  fst <$> groupby_size s = ordenar valor_leb (unique (dropna_s s)).
Proof.
  unfold groupby_size. rewrite <- list_fmap_compose.
  rewrite (list_fmap_ext _ id) by done. apply list_fmap_id.
Qed.

Lemma groupby_size_sorted s :
  StronglySorted (fun a b => valor_leb a.1 b.1 = true) (groupby_size s).
Proof.
  unfold groupby_size.
  apply (StronglySorted_fmap _ (fun a b => valor_leb a b = true)); [done|].
  apply ordenar_sorted; [apply valor_leb_total | apply valor_leb_trans].
Qed.

Lemma groupby2_size_sorted s1 s2 :
  StronglySorted (fun a b => par_leb a.1 b.1 = true) (groupby2_size s1 s2).
Proof.
  unfold groupby2_size.
  apply (StronglySorted_fmap _ (fun a b => par_leb a b = true)); [done|].
  apply ordenar_sorted; [apply par_leb_total | apply par_leb_trans].
Qed.

(** Sorting the grouped series by year leaves it as it is. *)
Lemma sort_values_groupby s : sort_values (groupby_size s) = groupby_size s.
Proof. apply ordenar_id, groupby_size_sorted. Qed.

Lemma elem_of_groupby_size y n s :
  (y, n) ∈ groupby_size s ↔ Some y ∈ s ∧ n = contar (Some y) s.
Proof.
  unfold groupby_size. rewrite list_elem_of_fmap. split.
  - intros (k & [= -> ->] & Hk).
    rewrite elem_of_ordenar, elem_of_unique, elem_of_dropna_s in Hk.
    by rewrite contar_dropna_s.
  - intros [Hy ->]. exists y. rewrite contar_dropna_s. split; [done|].
    by rewrite elem_of_ordenar, elem_of_unique, elem_of_dropna_s.
Qed.

Lemma df_temporal_Ok df s :
  getitem df col_anio = Ok s → df_temporal df = Ok (groupby_size s).
Proof.
  intros H. unfold df_temporal. rewrite H. cbn.
  by rewrite sort_values_groupby.
Qed.

(** C7. The yearly series is strictly increasing in the year, so no year
    is repeated; its years are exactly those present in the year column,
    and each comes with the number of its rows, which is at least one.
    On integer years the order is the usual one. *)
Theorem df_temporal_creciente df :
  col_anio ∈ columns df →
  ∃ s t,
    getitem df col_anio = Ok s ∧ df_temporal df = Ok t ∧
    StronglySorted valor_lt (fst <$> t) ∧
    NoDup (fst <$> t) ∧
    (∀ y, y ∈ fst <$> t ↔ Some y ∈ s) ∧
    (∀ y n, (y, n) ∈ t → n = contar (Some y) s ∧ 1 ≤ n) ∧
    (∀ a b : Z, valor_lt (VInt a) (VInt b) ↔ (a < b)%Z).
Proof.
  intros (i & _ & Hs)%getitem_Ok.
  eexists _, _. split; [exact Hs|]. split; [by apply df_temporal_Ok|].
  rewrite claves_groupby.
  assert (NoDup (ordenar valor_leb (unique (dropna_s (celda_en i <$> filas df)))))
    as Hnd by apply NoDup_ordenar, NoDup_unique.
  split; [|split; [done|split; [|split]]].
  - apply estrictamente_creciente; [done|].
    apply ordenar_sorted; [apply valor_leb_total | apply valor_leb_trans].
  - intros y. by rewrite elem_of_ordenar, elem_of_unique, elem_of_dropna_s.
  - intros y n [Hy ->]%elem_of_groupby_size. split; [done|].
    apply contar_pos in Hy. lia.
  - apply valor_lt_int.
Qed.

Lemma df_temporal_creciente_witness :
  ∃ s t,
    getitem df_ejemplo col_anio = Ok s ∧ df_temporal df_ejemplo = Ok t ∧
    StronglySorted valor_lt (fst <$> t) ∧
    NoDup (fst <$> t) ∧
    (∀ y, y ∈ fst <$> t ↔ Some y ∈ s) ∧
    (∀ y n, (y, n) ∈ t → n = contar (Some y) s ∧ 1 ≤ n) ∧
    (∀ a b : Z, valor_lt (VInt a) (VInt b) ↔ (a < b)%Z).
Proof.
  apply (df_temporal_creciente df_ejemplo). por_calculo.
Defined.

Example serie_anual :
  sort_values (groupby_size [Some (VInt 2016); Some (VInt 2015); Some (VInt 2015)])
  = [(VInt 2015, 2); (VInt 2016, 1)].
Proof. reflexivity. Qed.

Example df_temporal_ejemplo :
  df_temporal df_ejemplo = Ok [(VInt 2021, 2); (VInt 2022, 1); (VInt 2023, 1)].
Proof. vm_compute. reflexivity. Qed.

(** ** The order of the counts *)

Lemma grupos_antes (l : list valor) :
  StronglySorted (fun a b => antes l a.1 b.1) (grupos l).
Proof.
  unfold grupos. apply (StronglySorted_fmap _ (antes l)); [done|].
  apply unique_antes.
Qed.

Lemma value_counts_estable s :
  StronglySorted (orden_conteo (dropna_s s)) (value_counts s).
Proof.
  unfold value_counts.
  apply (StronglySorted_impl_elem
           (en_orden mas_frecuente (fun a b => antes (dropna_s s) a.1 b.1))).
  - apply ordenar_estable;
      [apply mas_frecuente_total | apply mas_frecuente_trans | apply grupos_antes].
  - intros a b _ _ [H1 H2]. unfold mas_frecuente in *.
    rewrite Nat.leb_le in H1. split; [done|].
    intros E. apply H2. apply Nat.leb_le. lia.
Qed.

Lemma head_value_counts_orden s n e e' :
  e ∈ head n (value_counts s) → e' ∈ value_counts s →
  e' ∉ head n (value_counts s) →
  orden_conteo (dropna_s s) e e'.
Proof.
  unfold head. intros He He' Hno.
  pose proof (value_counts_estable s) as Hs.
  rewrite <- (take_drop n (value_counts s)) in Hs, He'.
  apply elem_of_app in He' as [?|He']; [done|].
  by apply (StronglySorted_app_1_elem_of _ _ _ _ _ Hs).
Qed.




(** ** Departments *)

Lemma contar_NoDup {A} `{EqDecision A} (x : A) (l : list A) :
  NoDup l → x ∈ l → contar x l = 1.
Proof.
  induction 1 as [|y l Hy _ IH]; [by intros ?%elem_of_nil|].
  rewrite contar_cons. intros [->|Hx]%elem_of_cons.
  - rewrite decide_True by done. by rewrite contar_ausente.
  - rewrite decide_False by (intros ->; done). by rewrite IH.
Qed.

Lemma num_departamentos_Ok df s :
  getitem df col_depto = Ok s →
  num_departamentos df =
  Ok (length (filter (fun d => d ≠ sin_informacion) (unique (dropna_s s)))).
Proof.
  intros H. unfold num_departamentos, df_con_depto. rewrite H.
  cbn [mbind resultado_bind mret resultado_ret].
  rewrite (getitem_ne _ _ _ _ H).
  cbn [mbind resultado_bind mret resultado_ret]. unfold nunique.
  by rewrite dropna_s_filter, unique_filter.
Qed.

(** C3. The department count is the number of distinct departments other
    than the marker; the list of departments to choose from holds every
    distinct department, the marker included when the data has it, in
    increasing order; so the list is longer than the count by exactly
    one when the marker is in the data, and as long otherwise. *)
Theorem departamentos_centinela df :
  col_depto ∈ columns df →
  ∃ s n l,
    getitem df col_depto = Ok s ∧
    num_departamentos df = Ok n ∧ lista_deptos df = Ok l ∧
    NoDup l ∧ StronglySorted (fun a b => valor_leb a b = true) l ∧
    (∀ d, d ∈ l ↔ Some d ∈ s) ∧
    n = length (filter (fun d => d ≠ sin_informacion) l) ∧
    (Some sin_informacion ∈ s → length l = n + 1) ∧
    (Some sin_informacion ∉ s → length l = n).
Proof.
  intros (i & _ & Hs)%getitem_Ok.
  eexists _, _, _. split; [exact Hs|].
  split; [by apply num_departamentos_Ok|].
  unfold lista_deptos. rewrite Hs.
  split; [reflexivity|]. cbn [mbind resultado_bind mret resultado_ret].
  set (d := dropna_s (celda_en i <$> filas df)).
  assert (∀ x, x ∈ d ↔ Some x ∈ celda_en i <$> filas df) as Hd
    by (intros x; apply elem_of_dropna_s).
  split; [apply NoDup_ordenar, NoDup_unique|].
  split; [apply ordenar_sorted; [apply valor_leb_total | apply valor_leb_trans]|].
  split; [intros x; by rewrite elem_of_ordenar, elem_of_unique|].
  split; [by rewrite ordenar_perm|].
  rewrite length_ordenar.
  rewrite (length_filter_contar sin_informacion (unique d)). split.
  - intros Hin. rewrite contar_NoDup; [done | apply NoDup_unique|].
    by rewrite elem_of_unique, Hd.
  - intros Hno. rewrite contar_ausente; [lia|].
    by rewrite elem_of_unique, Hd.
Qed.

Lemma departamentos_centinela_witness :
  ∃ s n l,
    getitem df_ejemplo col_depto = Ok s ∧
    num_departamentos df_ejemplo = Ok n ∧ lista_deptos df_ejemplo = Ok l ∧
    NoDup l ∧ StronglySorted (fun a b => valor_leb a b = true) l ∧
    (∀ d, d ∈ l ↔ Some d ∈ s) ∧
    n = length (filter (fun d => d ≠ sin_informacion) l) ∧
    (Some sin_informacion ∈ s → length l = n + 1) ∧
    (Some sin_informacion ∉ s → length l = n).
Proof.
  apply (departamentos_centinela df_ejemplo). por_calculo.
Defined.

Example departamentos_ejemplo :
  num_departamentos df_ejemplo = Ok 2 ∧
  lista_deptos df_ejemplo =
    Ok [VStr "Antioquia"; VStr "Cauca"; VStr "Sin informacion"].
Proof. split; vm_compute; reflexivity. Qed.

(** ** The reasons under the selections *)

Lemma elem_of_head {A} (x : A) n (t : list A) : x ∈ head n t → x ∈ t.
Proof.
  unfold head. intros (i & Hi & _)%elem_of_take.
  by eapply list_elem_of_lookup_2.
Qed.

Lemma elem_of_razones_filtradas (incluir : bool) i j r ciclo genero
    (rows : list (list celda)) (k : valor) :
  Some k ∈ (if incluir then celda_en r <$> filter (pasa i j ciclo genero) rows
            else filter (fun x => x ≠ Some sin_informacion)
                   (celda_en r <$> filter (pasa i j ciclo genero) rows)) ↔
  (∃ f, f ∈ rows ∧ pasa i j ciclo genero f ∧ celda_en r f = Some k) ∧
  (incluir = false → k ≠ sin_informacion).
Proof.
  assert (Some k ∈ celda_en r <$> filter (pasa i j ciclo genero) rows ↔
          ∃ f, f ∈ rows ∧ pasa i j ciclo genero f ∧ celda_en r f = Some k) as Hs.
  { rewrite list_elem_of_fmap. split.
    - intros (f & E & [Hp Hf]%list_elem_of_filter). by exists f.
    - intros (f & Hf & Hp & E). exists f. split; [done|].
      by apply list_elem_of_filter. }
  destruct incluir.
  - rewrite Hs. split; [by intros ? | by intros [? _]].
  - rewrite list_elem_of_filter, Hs. split.
    + intros [Hne ?]. split; [done|]. intros _ ->. done.
    + intros [? Hne]. split; [|done]. intros [= ->]. by apply Hne.
Qed.

Lemma contar_razones_filtradas (incluir : bool) i j r ciclo genero
    (rows : list (list celda)) (k : valor) :
  (incluir = false → k ≠ sin_informacion) →
  contar (Some k)
    (if incluir then celda_en r <$> filter (pasa i j ciclo genero) rows
     else filter (fun x => x ≠ Some sin_informacion)
            (celda_en r <$> filter (pasa i j ciclo genero) rows)) =
  length (filter (fun f => pasa i j ciclo genero f ∧ celda_en r f = Some k) rows).
Proof.
  intros Hne.
  assert (contar (Some k) (celda_en r <$> filter (pasa i j ciclo genero) rows) =
          length (filter (fun f => pasa i j ciclo genero f ∧ celda_en r f = Some k)
                         rows)) as <-.
  { rewrite contar_fmap, list_filter_filter. f_equal.
    apply list_filter_iff. intros f. tauto. }
  destruct incluir; [done|].
  apply (contar_filter (fun x => x ≠ Some sin_informacion)).
  intros [= ->]. by apply Hne.
Qed.

Lemma fuera_de_head {A} (x : A) n (t : list A) :
  x ∈ t → x ∉ head n t → length (head n t) = n.
Proof.
  unfold head. intros Hin Hno. rewrite length_take.
  destruct (decide (length t ≤ n)); [|lia].
  by rewrite take_ge in Hno.
Qed.

(** C4. With the three columns in the dataset the view is returned: it
    is the first ten of the counts of the reasons of the rows that pass
    the selections of life-cycle stage and sex, the rows holding the
    marker being left out before counting when unreported cases are not
    included.  Each entry counts the passing rows that hold its reason; a
    reason held by a passing row is in the view with that count, unless
    ten entries of at least that count fill the view; the selection
    [Todos] lets every row pass; and when unreported cases are not
    included the marker is not among the reasons. *)
Theorem df_razones_dinamico_filtros df incluir ciclo genero :
  col_ciclo ∈ columns df → col_sexo ∈ columns df → col_razon ∈ columns df →
  ∃ i j r t,
    posicion col_ciclo (columns df) = Some i ∧
    posicion col_sexo (columns df) = Some j ∧
    posicion col_razon (columns df) = Some r ∧
    df_razones_dinamico df incluir ciclo genero = Ok t ∧
    length t ≤ 10 ∧
    (incluir = false → sin_informacion ∉ fst <$> t) ∧
    (∀ k n, (k, n) ∈ t →
       n = length (filter (fun f => pasa i j ciclo genero f ∧ celda_en r f = Some k)
                          (filas df))) ∧
    (∀ f, pasa i j "Todos" "Todos" f) ∧
    (∀ f, pasa i j ciclo "Todos" f ↔
          ciclo = "Todos" ∨ celda_en i f = Some (VStr ciclo)) ∧
    (∀ f, pasa i j "Todos" genero f ↔
          genero = "Todos" ∨ celda_en j f = Some (VStr genero)) ∧
    t = head 10 (value_counts
                   (if incluir
                    then celda_en r <$> filter (pasa i j ciclo genero) (filas df)
                    else filter (fun x => x ≠ Some sin_informacion)
                           (celda_en r <$> filter (pasa i j ciclo genero) (filas df)))) ∧
    NoDup (fst <$> t) ∧
    (∀ f k, f ∈ filas df → pasa i j ciclo genero f → celda_en r f = Some k →
       (incluir = false → k ≠ sin_informacion) →
       (k, length (filter (fun f => pasa i j ciclo genero f ∧ celda_en r f = Some k)
                          (filas df))) ∈ t ∨
       (length t = 10 ∧
        ∀ k' n', (k', n') ∈ t →
          length (filter (fun f => pasa i j ciclo genero f ∧ celda_en r f = Some k)
                         (filas df)) ≤ n')).
Proof.
  intros [i Hi]%posicion_is_Some [j Hj]%posicion_is_Some [r Hr]%posicion_is_Some.
  exists i, j, r.
  set (F := filter (pasa i j ciclo genero) (filas df)).
  set (s' := if incluir then celda_en r <$> F
             else filter (fun x => x ≠ Some sin_informacion) (celda_en r <$> F)).
  assert (getitem {| columns := columns df; filas := F |} col_razon
          = Ok (celda_en r <$> F)) as Hs
    by (unfold getitem; cbn [columns]; by rewrite Hr).
  exists (head 10 (value_counts s')).
  split; [done|]. split; [done|]. split; [done|].
  split.
  { rewrite (df_razones_dinamico_Ok df incluir ciclo genero i j _ Hi Hj Hs).
    unfold s'. by destruct incluir. }
  split; [unfold head; rewrite length_take; lia|].
  split; [|split; [|split; [|split; [|split; [|split; [|split]]]]]].
  - intros ->. intros ([k n] & Hk & Hin)%list_elem_of_fmap. cbn in Hk. subst k.
    apply elem_of_head in Hin.
    apply elem_of_value_counts in Hin as [Hin _].
    apply (elem_of_razones_filtradas false) in Hin as [_ Hne]. by apply Hne.
  - intros k n Hin. apply elem_of_head in Hin.
    apply elem_of_value_counts in Hin as [Hin ->].
    apply elem_of_razones_filtradas in Hin as [_ Hne].
    by apply contar_razones_filtradas.
  - intros f. split; by left.
  - intros f. unfold pasa. split; [by intros [? _] | intros ?; split; [done | by left]].
  - intros f. unfold pasa. split; [by intros [_ ?] | intros ?; split; [by left | done]].
  - done.
  - unfold head. rewrite fmap_take.
    exact (sublist_NoDup _ _ (NoDup_value_counts s') (sublist_take _ _)).
  - intros f k Hf Hp Hk Hne.
    rewrite <- (contar_razones_filtradas incluir i j r ciclo genero (filas df) k Hne).
    fold F. fold s'.
    assert ((k, contar (Some k) s') ∈ value_counts s') as Hin.
    { apply elem_of_value_counts. split; [|done].
      apply elem_of_razones_filtradas. split; [by exists f | done]. }
    destruct (decide ((k, contar (Some k) s') ∈ head 10 (value_counts s')))
      as [?|Hno]; [by left|right].
    split; [by eapply fuera_de_head|].
    intros k' n' Hin'.
    by destruct (head_value_counts_orden s' 10 _ _ Hin' Hin Hno) as [? _].
Qed.

Lemma df_razones_dinamico_filtros_witness :
  ∃ i j r t,
    posicion col_ciclo (columns df_ejemplo) = Some i ∧
    posicion col_sexo (columns df_ejemplo) = Some j ∧
    posicion col_razon (columns df_ejemplo) = Some r ∧
    df_razones_dinamico df_ejemplo false "Adultez" "Todos" = Ok t ∧
    length t ≤ 10 ∧
    (false = false → sin_informacion ∉ fst <$> t) ∧
    (∀ k n, (k, n) ∈ t →
       n = length (filter (fun f => pasa i j "Adultez" "Todos" f ∧ celda_en r f = Some k)
                          (filas df_ejemplo))) ∧
    (∀ f, pasa i j "Todos" "Todos" f) ∧
    (∀ f, pasa i j "Adultez" "Todos" f ↔
          "Adultez" = "Todos" ∨ celda_en i f = Some (VStr "Adultez")) ∧
    (∀ f, pasa i j "Todos" "Todos" f ↔
          "Todos" = "Todos" ∨ celda_en j f = Some (VStr "Todos")) ∧
    t = head 10 (value_counts
                   (filter (fun x => x ≠ Some sin_informacion)
                      (celda_en r <$> filter (pasa i j "Adultez" "Todos")
                                        (filas df_ejemplo)))) ∧
    NoDup (fst <$> t) ∧
    (∀ f k, f ∈ filas df_ejemplo → pasa i j "Adultez" "Todos" f →
       celda_en r f = Some k →
       (false = false → k ≠ sin_informacion) →
       (k, length (filter (fun f => pasa i j "Adultez" "Todos" f ∧ celda_en r f = Some k)
                          (filas df_ejemplo))) ∈ t ∨
       (length t = 10 ∧
        ∀ k' n', (k', n') ∈ t →
          length (filter (fun f => pasa i j "Adultez" "Todos" f ∧ celda_en r f = Some k)
                         (filas df_ejemplo)) ≤ n')).
Proof.
  apply (df_razones_dinamico_filtros df_ejemplo false "Adultez" "Todos");
    por_calculo.
Defined.

(** The marker leads the unfiltered ranking of the example and is left
    out when unreported cases are not included. *)
Example razones_ejemplo :
  df_razones_dinamico df_ejemplo true "Todos" "Todos" =
    Ok [(VStr "Sin informacion", 2); (VStr "Desamor", 1); (VStr "Economicas", 1)] ∧
  df_razones_dinamico df_ejemplo false "Todos" "Todos" =
    Ok [(VStr "Desamor", 1); (VStr "Economicas", 1)] ∧
  df_razones_dinamico df_ejemplo false "Adultez" "Hombre" =
    Ok [(VStr "Economicas", 1)].
Proof. repeat split; vm_compute; reflexivity. Qed.

(** ** Yearly indicators *)

Lemma buscar_groupby_size y s :
  default 0 (buscar y (groupby_size s)) = contar (Some y) s.
Proof.
  destruct (decide (Some y ∈ s)) as [Hin|Hnot].
  - rewrite (buscar_Some y (contar (Some y) s)); [done | |].
    + rewrite claves_groupby. apply NoDup_ordenar, NoDup_unique.
    + by apply elem_of_groupby_size.
  - rewrite buscar_None, contar_ausente; [done..|].
    intros ([k n] & -> & [H _]%elem_of_groupby_size)%list_elem_of_fmap. done.
Qed.

Lemma indicadores_groupby s :
  indicadores (groupby_size s) =
  <[2024%Z := cuenta s 2024]> (<[2023%Z := cuenta s 2023]>
    (<[2022%Z := cuenta s 2022]> (<[2021%Z := cuenta s 2021]> ∅))).
Proof.
  unfold indicadores, años_indicadores, cuenta. cbn [foldl].
  rewrite <- !buscar_groupby_size.
  by repeat destruct (buscar _ (groupby_size s)).
Qed.

Lemma indicadores_total s y :
  y ∈ años_indicadores → indicadores (groupby_size s) !!! y = cuenta s y.
Proof.
  rewrite indicadores_groupby. unfold años_indicadores.
  rewrite !elem_of_cons, elem_of_nil.
  intros [->|[->|[->|[->|[]]]]];
    by rewrite ?lookup_total_insert_ne, lookup_total_insert_eq by done.
Qed.

Lemma cuenta_nonneg s y : (0 ≤ cuenta s y)%Z.
Proof. unfold cuenta. lia. Qed.

(** The value the second loop stores for the year at index [S i]. *)
Lemma paso_deltas_siguiente s d i año anterior :
  años_indicadores !! i = Some anterior →
  año ∈ años_indicadores →
  paso_deltas (indicadores (groupby_size s)) d (S i, año) =
  <[año := variacion_relativa s anterior año]> d.
Proof.
  intros Hi Ha. unfold paso_deltas, variacion_relativa.
  rewrite decide_True by lia.
  replace (S i - 1)%nat with i by lia.
  rewrite (list_lookup_total_correct _ _ _ Hi).
  assert (anterior ∈ años_indicadores) by (by eapply list_elem_of_lookup_2).
  rewrite !indicadores_total by done.
  pose proof (cuenta_nonneg s anterior).
  destruct (decide (cuenta s anterior = 0)%Z) as [E|E].
  - rewrite decide_False by lia. done.
  - rewrite decide_True by lia. done.
Qed.

Lemma deltas_groupby s :
  deltas (indicadores (groupby_size s)) =
  <[2024%Z := variacion_relativa s 2023 2024]>
    (<[2023%Z := variacion_relativa s 2022 2023]>
       (<[2022%Z := variacion_relativa s 2021 2022]> (<[2021%Z := 0%Q]> ∅))).
Proof.
  unfold deltas, años_indicadores. cbn [imap foldl compose].
  rewrite (paso_deltas_siguiente s _ 2 2024 2023);
    [|done | unfold años_indicadores; set_solver].
  rewrite (paso_deltas_siguiente s _ 1 2023 2022);
    [|done | unfold años_indicadores; set_solver].
  rewrite (paso_deltas_siguiente s _ 0 2022 2021);
    [|done | unfold años_indicadores; set_solver].
  done.
Qed.

(** C5. The delta of the first configured year is 0 whatever the data;
    for each later configured year it is the relative change with respect
    to the year before when that year has rows, and 0 when it has none;
    the count of a year is the number of its rows, 0 when the year is
    absent. *)
Theorem deltas_interanuales df :
  col_anio ∈ columns df →
  ∃ s t,
    getitem df col_anio = Ok s ∧ df_temporal df = Ok t ∧
    (∀ y, y ∈ años_indicadores → indicadores t !! y = Some (cuenta s y)) ∧
    deltas (indicadores t) !! 2021%Z = Some 0%Q ∧
    (∀ y, y ∈ [2022; 2023; 2024]%Z →
       deltas (indicadores t) !! y =
       Some (if decide (cuenta s (y - 1) = 0)%Z then 0%Q
             else (inject_Z (cuenta s y - cuenta s (y - 1))
                   / inject_Z (cuenta s (y - 1)))%Q)).
Proof.
  intros (i & _ & Hs)%getitem_Ok.
  eexists _, _. split; [exact Hs|]. split; [by apply df_temporal_Ok|].
  rewrite deltas_groupby, indicadores_groupby. split; [|split].
  - unfold años_indicadores. intros y. rewrite !elem_of_cons, elem_of_nil.
    intros [->|[->|[->|[->|[]]]]];
      by rewrite ?lookup_insert_ne, lookup_insert_eq by done.
  - by rewrite ?lookup_insert_ne, lookup_insert_eq by done.
  - intros y. rewrite !elem_of_cons, elem_of_nil.
    intros [->|[->|[->|[]]]];
      by rewrite ?lookup_insert_ne, lookup_insert_eq by done.
Qed.

Lemma deltas_interanuales_witness :
  ∃ s t,
    getitem df_ejemplo col_anio = Ok s ∧ df_temporal df_ejemplo = Ok t ∧
    (∀ y, y ∈ años_indicadores → indicadores t !! y = Some (cuenta s y)) ∧
    deltas (indicadores t) !! 2021%Z = Some 0%Q ∧
    (∀ y, y ∈ [2022; 2023; 2024]%Z →
       deltas (indicadores t) !! y =
       Some (if decide (cuenta s (y - 1) = 0)%Z then 0%Q
             else (inject_Z (cuenta s y - cuenta s (y - 1))
                   / inject_Z (cuenta s (y - 1)))%Q)).
Proof.
  apply (deltas_interanuales df_ejemplo). por_calculo.
Defined.

(** Two rows in 2021 and one in 2022: the delta of 2022 is -1/2; 2024 has
    no rows and 2023 has one: the delta of 2024 is -1. *)
Example deltas_ejemplo :
  ∃ t, df_temporal df_ejemplo = Ok t ∧
       deltas (indicadores t) !! 2021%Z = Some 0%Q ∧
       deltas (indicadores t) !! 2022%Z = Some (-1 # 2)%Q ∧
       deltas (indicadores t) !! 2023%Z = Some 0%Q ∧
       deltas (indicadores t) !! 2024%Z = Some (-1)%Q.
Proof. eexists. split; [vm_compute; reflexivity|]. repeat split. Qed.

(** ** The total variation *)

Lemma valor_leb_refl a : valor_leb a a = true.
Proof. by destruct (valor_leb_total a a). Qed.

Lemma casos_final_last t : casos_final t = snd <$> match last t with
                                                   | Some x => Ok x
                                                   | None => Raise IndexError
                                                   end.
Proof.
  unfold casos_final, iloc. rewrite last_lookup.
  by replace (length t - 1) with (pred (length t)) by lia.
Qed.

(** * Further properties of the script *)

(** ** Loading *)

Lemma celda_en_lookup i (f : list celda) v :
  celda_en i f = Some v → f !! i = Some (Some v).
Proof. unfold celda_en. destruct (f !! i) as [[x|]|]; simpl; congruence. Qed.

Lemma filter_completa_id cols (l : list (list celda)) :
  Forall (fun f => completa cols f = true) l → List.filter (completa cols) l = l.
Proof.
  induction 1 as [|f l Hf _ IH]; simpl; [done|]. by rewrite Hf, IH.
Qed.

Lemma limpio_dropna df : limpio df → dropna df = df.
Proof.
  intros [H _]. unfold dropna. destruct df as [cols rows]. cbn in *.
  f_equal. apply filter_completa_id.
  eapply Forall_impl; [exact H|]. intros f Hf. by apply completa_spec.
Qed.

Lemma setitem_texto df c i :
  posicion c (columns df) = Some i →
  Forall (fun f => ∃ s, celda_en i f = Some (VStr s)) (filas df) →
  setitem df c (astype_str (celda_en i <$> filas df)) = df.
Proof.
  intros Hi Hall. rewrite (setitem_astype _ _ _ Hi).
  destruct df as [cols rows]. cbn in *. f_equal.
  induction Hall as [|f l [s Hf] _ IH]; [done|].
  rewrite fmap_cons, IH. f_equal.
  rewrite Hf. cbn. apply list_insert_id. by apply celda_en_lookup.
Qed.

Lemma a_texto_texto cols df :
  (∀ c, c ∈ cols →
        ∃ i, posicion c (columns df) = Some i ∧
             Forall (fun f => ∃ s, celda_en i f = Some (VStr s)) (filas df)) →
  a_texto cols df = Ok df.
Proof.
  induction cols as [|c cols IH]; intros H; [done|].
  destruct (H c) as (i & Hi & Hall); [by left|].
  cbn [a_texto]. unfold getitem. rewrite Hi. cbn [mbind resultado_bind].
  rewrite (setitem_texto _ _ _ Hi Hall).
  apply IH. intros c' Hc'. apply H. by right.
Qed.

(** X1. Cleaning is idempotent: the steps of the loader after the read,
    applied to a dataset the loader has returned, give that dataset
    back. *)
Theorem limpieza_idempotente analizar contenido df :
  cargar_datos analizar contenido = Ok df →
  a_texto columnas_str (dropna df) = Ok df.
Proof.
  intros H%cargar_datos_limpio. rewrite (limpio_dropna df H).
  apply a_texto_texto. by destruct H as [_ H].
Qed.

Lemma limpieza_idempotente_witness :
  a_texto columnas_str (dropna df_ejemplo) = Ok df_ejemplo.
Proof.
  apply (limpieza_idempotente csv_sencillo archivo_ejemplo).
  vm_compute. reflexivity.
Defined.

Lemma length_filter_negb {A} (p : A → bool) (l : list A) :
  length (List.filter p l) + length (List.filter (fun x => negb (p x)) l)
  = length l.
Proof.
  induction l as [|x l IH]; simpl; [done|].
  destruct (p x); simpl; lia.
Qed.

(** X2. The rows of the dataset and the rows of the table read that have
    a missing cell add up to the rows read: a row is either kept or
    dropped, none is added. *)
Theorem registros_descartados analizar contenido df :
  cargar_datos analizar contenido = Ok df →
  ∃ crudo,
    read_csv analizar contenido = Ok crudo ∧
    num_registros df +
      length (List.filter (fun f => negb (completa (columns crudo) f)) (filas crudo))
    = len crudo.
Proof.
  intros (crudo & ps & Hread & _ & ->)%cargar_datos_Ok.
  exists crudo. split; [done|].
  unfold num_registros, len. cbn [filas]. rewrite length_fmap.
  apply length_filter_negb.
Qed.

Lemma registros_descartados_witness :
  ∃ crudo,
    read_csv csv_sencillo archivo_ejemplo = Ok crudo ∧
    num_registros df_ejemplo +
      length (List.filter (fun f => negb (completa (columns crudo) f)) (filas crudo))
    = len crudo.
Proof.
  apply (registros_descartados csv_sencillo archivo_ejemplo).
  vm_compute. reflexivity.
Defined.

Lemma a_texto_primera_ausente l1 c l2 df :
  Forall (fun c' => c' ∈ columns df) l1 → c ∉ columns df →
  a_texto (l1 ++ c :: l2) df = Raise (KeyError c).
Proof.
  revert df. induction l1 as [|c' l1 IH]; intros df Hall Hc.
  - cbn. unfold getitem. apply posicion_None in Hc. by rewrite Hc.
  - apply Forall_cons in Hall as [[i Hi]%posicion_is_Some Hall].
    cbn [app a_texto]. unfold getitem. rewrite Hi. cbn [mbind resultado_bind].
    rewrite (setitem_astype _ _ _ Hi). by apply IH.
Qed.

(** X3. The coercion loop visits the categorical columns in the order of
    [columnas_str]: the [KeyError] of the loader names the first of them
    that the table read does not have. *)
Theorem cargar_datos_primera_ausente analizar contenido crudo l1 c l2 :
  read_csv analizar contenido = Ok crudo →
  columnas_str = l1 ++ c :: l2 →
  Forall (fun c' => c' ∈ columns crudo) l1 →
  c ∉ columns crudo →
  cargar_datos analizar contenido = Raise (KeyError c).
Proof.
  intros Hread Hsplit Hall Hc. unfold cargar_datos. rewrite Hread.
  cbn [mbind resultado_bind]. rewrite Hsplit.
  by apply a_texto_primera_ausente.
Qed.

Lemma cargar_datos_primera_ausente_witness :
  cargar_datos csv_sencillo archivo_sin_ciclo = Raise (KeyError col_ciclo).
Proof.
  apply (cargar_datos_primera_ausente csv_sencillo archivo_sin_ciclo df_sin_ciclo
           [col_depto] col_ciclo
           [col_sexo; col_escenario; col_mecanismo; col_razon]).
  - vm_compute. reflexivity.
  - reflexivity.
  - por_calculo.
  - por_calculo.
Defined.



Lemma utf8_valido_ascii bs :
  Forall (fun b => (Byte.to_N b < 128)%N) bs → utf8_valido bs = true.
Proof.
  induction 1 as [|b bs Hb _ IH]; [done|].
  cbn [utf8_valido]. unfold entre at 1.
  assert ((0 <=? Byte.to_N b)%N && (Byte.to_N b <=? 127)%N = true) as ->; [|done].
  apply andb_true_intro. split; apply N.leb_le; lia.
Qed.

(** X6. A file of ASCII bytes never fails to decode: the reader receives
    its content as it is. *)
Theorem read_csv_ascii analizar contenido :
  Forall (fun b => (Byte.to_N b < 128)%N) contenido →
  read_csv analizar contenido = analizar (string_of_list_byte contenido).
Proof.
  intros H. unfold read_csv, decode_utf8_sig.
  assert (sin_bom contenido = contenido) as ->.
  { destruct H as [|b bs Hb _]; [done|].
    by destruct b. }
  by rewrite (utf8_valido_ascii _ H).
Qed.

Lemma read_csv_ascii_witness :
  read_csv csv_sencillo archivo_sin_anio
  = csv_sencillo (string_of_list_byte archivo_sin_anio).
Proof.
  apply (read_csv_ascii csv_sencillo archivo_sin_anio). por_calculo.
Defined.

(** X7. After loading, every cell of a categorical column is text. *)
Theorem categoricas_son_texto analizar contenido df c :
  cargar_datos analizar contenido = Ok df →
  c ∈ columnas_str →
  ∃ s, getitem df c = Ok s ∧ length s = len df ∧
       Forall (fun x => ∃ t, x = Some (VStr t)) s.
Proof.
  intros [_ H]%cargar_datos_limpio Hc. destruct (H c Hc) as (i & Hi & Hall).
  exists (celda_en i <$> filas df). unfold getitem. rewrite Hi.
  split; [done|]. split; [apply length_fmap|]. by rewrite Forall_fmap.
Qed.

Lemma categoricas_son_texto_witness :
  ∃ s, getitem df_ejemplo col_depto = Ok s ∧ length s = len df_ejemplo ∧
       Forall (fun x => ∃ t, x = Some (VStr t)) s.
Proof.
  apply (categoricas_son_texto csv_sencillo archivo_ejemplo).
  - vm_compute. reflexivity.
  - por_calculo.
Defined.

(** ** Totals *)

Lemma length_groupby_size s :
  length (groupby_size s) = length (unique (dropna_s s)).
Proof. unfold groupby_size. by rewrite length_fmap, length_ordenar. Qed.

(** X8. The number of years shown in the summary is the number of entries
    of the yearly series. *)
Theorem num_anios_serie df :
  col_anio ∈ columns df →
  ∃ n t, num_anios df = Ok n ∧ df_temporal df = Ok t ∧ n = length t.
Proof.
  intros (i & _ & Hs)%getitem_Ok.
  eexists _, _. split; [|split; [by apply df_temporal_Ok|]].
  - unfold num_anios. rewrite Hs. reflexivity.
  - unfold nunique. by rewrite length_groupby_size.
Qed.

Lemma num_anios_serie_witness :
  ∃ n t, num_anios df_ejemplo = Ok n ∧ df_temporal df_ejemplo = Ok t ∧
         n = length t.
Proof. apply (num_anios_serie df_ejemplo). por_calculo. Defined.

Lemma suma_por_claves {A} `{EqDecision A} (leb : A → A → bool) (l : list A) :
  suma ((fun k => (k, contar k l)) <$> ordenar leb (unique l)) = length l.
Proof.
  unfold suma. rewrite sum_list_with_fmap. cbn. rewrite ordenar_perm.
  apply sum_contar; [apply NoDup_unique|].
  intros x. by rewrite elem_of_unique.
Qed.

Lemma length_pares (s1 s2 : Series) :
  length s1 = length s2 → None ∉ s1 → None ∉ s2 →
  length (pares s1 s2) = length s1.
Proof.
  revert s2. induction s1 as [|[a|] s1 IH]; intros [|[b|] s2]; try done.
  - rewrite !not_elem_of_cons. intros [= Hlen] [_ H1] [_ H2].
    cbn. f_equal. by apply IH.
  - rewrite !not_elem_of_cons. by intros _ _ [? _].
  - rewrite !not_elem_of_cons. by intros _ [? _].
  - rewrite !not_elem_of_cons. by intros _ [? _].
Qed.

(** X9. On a loaded dataset that has the year column, the counts of the
    yearly series, of the cross-tabulation of life-cycle stage and sex and
    of the breakdown by department and year each add up to the number of
    records. *)
Theorem totales_por_grupo analizar contenido df :
  cargar_datos analizar contenido = Ok df →
  col_anio ∈ columns df →
  ∃ t1 t2 t3,
    df_temporal df = Ok t1 ∧ df_genero_ciclo df = Ok t2 ∧
    df_depto_anio df = Ok t3 ∧
    suma t1 = num_registros df ∧ suma t2 = num_registros df ∧
    suma t3 = num_registros df.
Proof.
  intros Hdf Ha. pose proof (cargar_datos_limpio _ _ _ Hdf) as Hl.
  destruct (Hl) as [_ Hcat].
  assert (col_depto ∈ columns df ∧ col_ciclo ∈ columns df ∧ col_sexo ∈ columns df)
    as (Hd & Hc & Hs).
  { repeat split.
    - destruct (Hcat col_depto) as (i & Hi%posicion_lookup & _); [por_calculo|].
      by eapply list_elem_of_lookup_2.
    - destruct (Hcat col_ciclo) as (i & Hi%posicion_lookup & _); [por_calculo|].
      by eapply list_elem_of_lookup_2.
    - destruct (Hcat col_sexo) as (i & Hi%posicion_lookup & _); [por_calculo|].
      by eapply list_elem_of_lookup_2. }
  destruct (limpio_getitem df _ Hl Ha) as (sa & Ea & La & Na).
  destruct (limpio_getitem df _ Hl Hd) as (sd & Ed & Ld & Nd).
  destruct (limpio_getitem df _ Hl Hc) as (sc & Ec & Lc & Nc).
  destruct (limpio_getitem df _ Hl Hs) as (ss & Es & Ls & Ns).
  exists (groupby_size sa), (groupby2_size sc ss), (groupby2_size sd sa).
  split; [by apply df_temporal_Ok|].
  split; [unfold df_genero_ciclo; by rewrite Ec, Es|].
  split; [unfold df_depto_anio; by rewrite Ed, Ea|].
  unfold groupby_size, groupby2_size, num_registros.
  rewrite !suma_por_claves.
  rewrite (length_dropna_s sa Na), !length_pares by (done || congruence).
  done.
Qed.

Lemma totales_por_grupo_witness :
  ∃ t1 t2 t3,
    df_temporal df_ejemplo = Ok t1 ∧ df_genero_ciclo df_ejemplo = Ok t2 ∧
    df_depto_anio df_ejemplo = Ok t3 ∧
    suma t1 = num_registros df_ejemplo ∧ suma t2 = num_registros df_ejemplo ∧
    suma t3 = num_registros df_ejemplo.
Proof.
  apply (totales_por_grupo csv_sencillo archivo_ejemplo).
  - vm_compute. reflexivity.
  - por_calculo.
Defined.

(** ** The leading entries *)

Lemma value_counts_sorted s :
  StronglySorted (fun a b => mas_frecuente a b = true) (value_counts s).
Proof.
  apply ordenar_sorted; [apply mas_frecuente_total | apply mas_frecuente_trans].
Qed.

(** The first entry of the counts of a column, whole or truncated, is a
    key of the largest count; there is none when the column has no value. *)
Lemma principal_maximo s n :
  0 < n →
  ((∃ v, Some v ∈ s) →
   ∃ k c, clave_principal (head n (value_counts s)) = Ok k ∧
          casos_principal (head n (value_counts s)) = Ok c ∧
          Some k ∈ s ∧ c = contar (Some k) s ∧ 1 ≤ c ∧
          ∀ v, contar (Some v) s ≤ c) ∧
  ((∀ v, Some v ∉ s) →
   clave_principal (head n (value_counts s)) = Raise IndexError ∧
   casos_principal (head n (value_counts s)) = Raise IndexError).
Proof.
  intros Hn. pose proof (value_counts_sorted s) as Hsort.
  pose proof (elem_of_value_counts) as Hel.
  unfold clave_principal, casos_principal, iloc, head.
  destruct (value_counts s) as [|[k c] t] eqn:Et.
  - split.
    + intros [v Hv]. exfalso.
      assert ((v, contar (Some v) s) ∈ value_counts s) as H by by apply Hel.
      rewrite Et in H. by apply elem_of_nil in H.
    + intros _. by destruct n.
  - assert ((k, c) ∈ value_counts s) as [Hk ->]%Hel by (rewrite Et; by left).
    split.
    + intros _. exists k, (contar (Some k) s).
      destruct n as [|n]; [lia|]. cbn.
      split; [done|]. split; [done|]. split; [done|]. split; [done|].
      split; [apply contar_pos in Hk; lia|].
      intros v. destruct (decide (Some v ∈ s)) as [Hv|Hv].
      * assert ((v, contar (Some v) s) ∈ (k, contar (Some k) s) :: t) as H.
        { rewrite <- Et. by apply Hel. }
        apply StronglySorted_inv in Hsort as [_ Hall].
        apply elem_of_cons in H as [[= -> _]|H]; [done|].
        rewrite Forall_forall in Hall. apply Hall in H.
        unfold mas_frecuente in H. cbn in H. by apply Nat.leb_le in H.
      * rewrite (contar_ausente _ _ Hv). lia.
    + intros Hno. exfalso. by apply (Hno k).
Qed.

(** X10. The life-cycle stage reported as the most frequent has the
    largest count of all stages, and its count is the number of its rows;
    on a dataset without any stage the access to the first row raises
    [IndexError]. *)
Theorem ciclo_mayor_maximo df :
  col_ciclo ∈ columns df →
  ∃ s, getitem df col_ciclo = Ok s ∧
    ((∃ v, Some v ∈ s) →
     ∃ k c, ciclo_mayor df = Ok k ∧ casos_mayor df = Ok c ∧
            Some k ∈ s ∧ c = contar (Some k) s ∧ 1 ≤ c ∧
            ∀ v, contar (Some v) s ≤ c) ∧
    ((∀ v, Some v ∉ s) →
     ciclo_mayor df = Raise IndexError ∧ casos_mayor df = Raise IndexError).
Proof.
  intros (i & _ & Hs)%getitem_Ok. eexists. split; [exact Hs|].
  unfold ciclo_mayor, casos_mayor, df_ciclo. rewrite Hs.
  cbn [mbind resultado_bind mret resultado_ret].
  set (s := celda_en i <$> filas df).
  pose proof (principal_maximo s (S (length (value_counts s)))) as H.
  unfold head in H. rewrite take_ge in H by lia. apply H. lia.
Qed.

Lemma ciclo_mayor_maximo_witness :
  ∃ s, getitem df_ejemplo col_ciclo = Ok s ∧
    ((∃ v, Some v ∈ s) →
     ∃ k c, ciclo_mayor df_ejemplo = Ok k ∧ casos_mayor df_ejemplo = Ok c ∧
            Some k ∈ s ∧ c = contar (Some k) s ∧ 1 ≤ c ∧
            ∀ v, contar (Some v) s ≤ c) ∧
    ((∀ v, Some v ∉ s) →
     ciclo_mayor df_ejemplo = Raise IndexError ∧
     casos_mayor df_ejemplo = Raise IndexError).
Proof. apply (ciclo_mayor_maximo df_ejemplo). por_calculo. Defined.

(** X11. The scene and the mechanism reported as the main ones are read
    from the views of ten entries, and still have the largest count of
    all scenes and of all mechanisms of the data. *)
Theorem principales_maximos df :
  col_escenario ∈ columns df → col_mecanismo ∈ columns df →
  ∃ se sm,
    getitem df col_escenario = Ok se ∧ getitem df col_mecanismo = Ok sm ∧
    ((∃ v, Some v ∈ se) →
     ∃ k c, escenario_principal df = Ok k ∧ casos_escenario df = Ok c ∧
            Some k ∈ se ∧ c = contar (Some k) se ∧ 1 ≤ c ∧
            ∀ v, contar (Some v) se ≤ c) ∧
    ((∃ v, Some v ∈ sm) →
     ∃ k c, mecanismo_principal df = Ok k ∧ casos_mecanismo df = Ok c ∧
            Some k ∈ sm ∧ c = contar (Some k) sm ∧ 1 ≤ c ∧
            ∀ v, contar (Some v) sm ≤ c).
Proof.
  intros (i & _ & He)%getitem_Ok (j & _ & Hm)%getitem_Ok.
  eexists _, _. split; [exact He|]. split; [exact Hm|].
  unfold escenario_principal, casos_escenario, df_escenario,
    mecanismo_principal, casos_mecanismo, df_mecanismo.
  rewrite He, Hm. cbn [mbind resultado_bind mret resultado_ret].
  split; apply principal_maximo; lia.
Qed.

Lemma principales_maximos_witness :
  ∃ se sm,
    getitem df_ejemplo col_escenario = Ok se ∧
    getitem df_ejemplo col_mecanismo = Ok sm ∧
    ((∃ v, Some v ∈ se) →
     ∃ k c, escenario_principal df_ejemplo = Ok k ∧
            casos_escenario df_ejemplo = Ok c ∧
            Some k ∈ se ∧ c = contar (Some k) se ∧ 1 ≤ c ∧
            ∀ v, contar (Some v) se ≤ c) ∧
    ((∃ v, Some v ∈ sm) →
     ∃ k c, mecanismo_principal df_ejemplo = Ok k ∧
            casos_mecanismo df_ejemplo = Ok c ∧
            Some k ∈ sm ∧ c = contar (Some k) sm ∧ 1 ≤ c ∧
            ∀ v, contar (Some v) sm ≤ c).
Proof. apply (principales_maximos df_ejemplo); por_calculo. Defined.

(** ** Men and women *)

Lemma filter_clave_ausente {A} `{EqDecision A} {B} (k : A) (t : list (A * B)) :
  k ∉ fst <$> t → filter (fun e => e.1 = k) t = [].
Proof.
  induction t as [|[k2 b2] t IH]; [done|].
  rewrite fmap_cons, not_elem_of_cons. intros [Hne Hl].
  rewrite filter_cons_False; [by apply IH|].
  intros E. cbn in E, Hne. congruence.
Qed.

Lemma filter_clave {A} `{EqDecision A} {B} (k : A) (b : B) (t : list (A * B)) :
  NoDup (fst <$> t) → (k, b) ∈ t → filter (fun e => e.1 = k) t = [(k, b)].
Proof.
  induction t as [|[k' b'] t IH]; [by intros _ ?%elem_of_nil|].
  rewrite fmap_cons. intros [Hk Hnd]%NoDup_cons Hin.
  apply elem_of_cons in Hin as [[= -> ->]|Hin].
  - rewrite filter_cons_True by done. by rewrite filter_clave_ausente.
  - rewrite filter_cons_False; [by apply IH|].
    intros E. cbn in E. subst k'. apply Hk.
    apply list_elem_of_fmap. by exists (k, b).
Qed.

Lemma cantidad_de_value_counts v s :
  cantidad_de v (value_counts s) =
  if decide (Some v ∈ s) then Ok (contar (Some v) s) else Raise IndexError.
Proof.
  unfold cantidad_de. case_decide as Hv.
  - rewrite (filter_clave v (contar (Some v) s)); [done | |].
    + apply NoDup_value_counts.
    + by apply elem_of_value_counts.
  - rewrite filter_clave_ausente; [done|].
    intros ([k n] & -> & [H _]%elem_of_value_counts)%list_elem_of_fmap. done.
Qed.

(** X12. The counts of men and of women are the numbers of their rows.
    When the data has both, the ratio is their finite quotient, the
    divisor being at least one; when either is absent the lookup of its
    count raises [IndexError], so the ratio never divides by zero. *)
Theorem ratio_definido df :
  col_sexo ∈ columns df →
  ∃ s, getitem df col_sexo = Ok s ∧
    (Some (VStr "Hombre") ∈ s → Some (VStr "Mujer") ∈ s →
     hombres df = Ok (contar (Some (VStr "Hombre")) s) ∧
     mujeres df = Ok (contar (Some (VStr "Mujer")) s) ∧
     1 ≤ contar (Some (VStr "Mujer")) s ∧
     ratio df =
       Ok (Finito (inject_Z (Z.of_nat (contar (Some (VStr "Hombre")) s))
                   / inject_Z (Z.of_nat (contar (Some (VStr "Mujer")) s)))%Q)) ∧
    (Some (VStr "Hombre") ∉ s ∨ Some (VStr "Mujer") ∉ s →
     ratio df = Raise IndexError) ∧
    ratio df ≠ Ok NoFinito.
Proof.
  intros (i & _ & Hs)%getitem_Ok. eexists. split; [exact Hs|].
  unfold ratio, hombres, mujeres, df_genero. rewrite Hs.
  cbn [mbind resultado_bind mret resultado_ret].
  rewrite !cantidad_de_value_counts.
  set (s := celda_en i <$> filas df).
  destruct (decide (Some (VStr "Hombre") ∈ s)) as [Hh|Hh];
    destruct (decide (Some (VStr "Mujer") ∈ s)) as [Hm|Hm];
    cbn [mbind resultado_bind mret resultado_ret].
  - apply contar_pos in Hm as Hpos.
    rewrite decide_False by lia.
    split; [intros _ _; repeat split; lia|]. split; [by intros [?|?]|done].
  - split; [done|]. split; done.
  - split; [done|]. split; done.
  - split; [done|]. split; done.
Qed.

Lemma ratio_definido_witness :
  ∃ s, getitem df_ejemplo col_sexo = Ok s ∧
    (Some (VStr "Hombre") ∈ s → Some (VStr "Mujer") ∈ s →
     hombres df_ejemplo = Ok (contar (Some (VStr "Hombre")) s) ∧
     mujeres df_ejemplo = Ok (contar (Some (VStr "Mujer")) s) ∧
     1 ≤ contar (Some (VStr "Mujer")) s ∧
     ratio df_ejemplo =
       Ok (Finito (inject_Z (Z.of_nat (contar (Some (VStr "Hombre")) s))
                   / inject_Z (Z.of_nat (contar (Some (VStr "Mujer")) s)))%Q)) ∧
    (Some (VStr "Hombre") ∉ s ∨ Some (VStr "Mujer") ∉ s →
     ratio df_ejemplo = Raise IndexError) ∧
    ratio df_ejemplo ≠ Ok NoFinito.
Proof. apply (ratio_definido df_ejemplo). por_calculo. Defined.

(** Three men and one woman in the example; a dataset of men only has no
    ratio. *)
Example ratio_ejemplo :
  hombres df_ejemplo = Ok 3 ∧ mujeres df_ejemplo = Ok 1 ∧
  mujeres df_sin_ciclo = Raise IndexError ∧
  ratio df_sin_ciclo = Raise IndexError.
Proof. repeat split; vm_compute; reflexivity. Qed.

(** ** The series of one department *)

Lemma sin_repetidos_estricto {A} (R : A → A → Prop) (l : list A) :
  NoDup l → StronglySorted R l →
  StronglySorted (fun a b => R a b ∧ a ≠ b) l.
Proof.
  intros Hnd Hs. induction Hs as [|a l Hs IH Hall]; [constructor|].
  apply NoDup_cons in Hnd as [Ha Hnd]. constructor; [by apply IH|].
  rewrite Forall_forall in Hall |- *. intros b Hb.
  split; [by apply Hall|]. by intros ->.
Qed.

Lemma filter_fmap_clave {A B} (g : A → B) (P : A → Prop)
    `{!∀ k, Decision (P k)} (ks : list A) :
  filter (fun e => P e.1) ((fun k => (k, g k)) <$> ks)
  = (fun k => (k, g k)) <$> filter P ks.
Proof.
  induction ks as [|k ks IH]; [done|].
  rewrite fmap_cons, !filter_cons. cbn. case_decide; [|done].
  rewrite fmap_cons. by f_equal.
Qed.

Lemma elem_of_groupby2_size a b n s1 s2 :
  (a, b, n) ∈ groupby2_size s1 s2 ↔
  (a, b) ∈ pares s1 s2 ∧ n = contar (a, b) (pares s1 s2).
Proof.
  unfold groupby2_size. rewrite list_elem_of_fmap. split.
  - intros (k & [= -> ->] & Hk).
    by rewrite elem_of_ordenar, elem_of_unique in Hk.
  - intros [H ->]. exists (a, b). split; [done|].
    by rewrite elem_of_ordenar, elem_of_unique.
Qed.

Lemma df_depto_filtrado_Ok df d s1 s2 :
  getitem df col_depto = Ok s1 → getitem df col_anio = Ok s2 →
  df_depto_filtrado df d =
  Ok ((fun k => (k, contar k (pares s1 s2))) <$>
        filter (fun k => k.1 = d) (ordenar par_leb (unique (pares s1 s2)))).
Proof.
  intros H1 H2. unfold df_depto_filtrado, df_depto_anio. rewrite H1, H2.
  cbn [mbind resultado_bind mret resultado_ret]. unfold groupby2_size.
  f_equal.
  exact (filter_fmap_clave (fun k => contar k (pares s1 s2))
                           (fun k : valor * valor => k.1 = d) _).
Qed.

(** X13. The series shown for the selected department holds that
    department only, goes by strictly increasing year, and gives for each
    of its years the number of rows of that department and year. *)
Theorem df_depto_filtrado_serie df d :
  col_depto ∈ columns df → col_anio ∈ columns df →
  ∃ s1 s2 t,
    getitem df col_depto = Ok s1 ∧ getitem df col_anio = Ok s2 ∧
    df_depto_filtrado df d = Ok t ∧
    Forall (fun e => e.1.1 = d) t ∧
    StronglySorted valor_lt ((fun e => e.1.2) <$> t) ∧
    (∀ y n, (d, y, n) ∈ t ↔
            (d, y) ∈ pares s1 s2 ∧ n = contar (d, y) (pares s1 s2)).
Proof.
  intros (i & _ & H1)%getitem_Ok (j & _ & H2)%getitem_Ok.
  eexists _, _, _. split; [exact H1|]. split; [exact H2|].
  split; [by apply df_depto_filtrado_Ok|].
  set (l := pares (celda_en i <$> filas df) (celda_en j <$> filas df)).
  set (ks := ordenar par_leb (unique l)).
  assert (NoDup ks) as Hnd by apply NoDup_ordenar, NoDup_unique.
  assert (StronglySorted (fun a b => par_leb a b = true) ks) as Hs
    by (apply ordenar_sorted; [apply par_leb_total | apply par_leb_trans]).
  split; [|split].
  - rewrite Forall_fmap, Forall_forall. by intros k [Hk _]%list_elem_of_filter.
  - rewrite <- list_fmap_compose.
    apply (StronglySorted_fmap _ (fun a b => (par_leb a b = true ∧ a ≠ b)
                                             ∧ a.1 = d ∧ b.1 = d)).
    + intros [a1 a2] [b1 b2] [[Hle Hne] [E1 E2]]. cbn in *. subst.
      unfold par_leb in Hle. cbn in Hle. rewrite decide_True in Hle by done.
      split; [done|]. congruence.
    + apply (StronglySorted_impl_elem (fun a b => par_leb a b = true ∧ a ≠ b)).
      * apply StronglySorted_filter. by apply sin_repetidos_estricto.
      * intros a b [Ha _]%list_elem_of_filter [Hb _]%list_elem_of_filter ?.
        done.
  - intros y n. rewrite list_elem_of_fmap. split.
    + intros (k & [= <- ->] & [_ Hk]%list_elem_of_filter).
      unfold ks in Hk. by rewrite elem_of_ordenar, elem_of_unique in Hk.
    + intros [Hin ->]. exists (d, y). split; [done|].
      apply list_elem_of_filter. split; [done|].
      unfold ks. by rewrite elem_of_ordenar, elem_of_unique.
Qed.

Lemma df_depto_filtrado_serie_witness :
  ∃ s1 s2 t,
    getitem df_ejemplo col_depto = Ok s1 ∧ getitem df_ejemplo col_anio = Ok s2 ∧
    df_depto_filtrado df_ejemplo (VStr "Antioquia") = Ok t ∧
    Forall (fun e => e.1.1 = VStr "Antioquia") t ∧
    StronglySorted valor_lt ((fun e => e.1.2) <$> t) ∧
    (∀ y n, (VStr "Antioquia", y, n) ∈ t ↔
            (VStr "Antioquia", y) ∈ pares s1 s2 ∧
            n = contar (VStr "Antioquia", y) (pares s1 s2)).
Proof.
  apply (df_depto_filtrado_serie df_ejemplo (VStr "Antioquia")); por_calculo.
Defined.

Lemma sum_list_with_ext_in {B} (f g : B → nat) (t : list B) :
  (∀ b, b ∈ t → f b = g b) → sum_list_with f t = sum_list_with g t.
Proof.
  induction t as [|b t IH]; intros E; [done|]. cbn.
  rewrite (E b) by by left. f_equal. apply IH. intros ??. apply E. by right.
Qed.

Lemma length_pares_de d (s1 s2 : Series) :
  length s1 = length s2 → None ∉ s2 →
  length (filter (fun p => p.1 = d) (pares s1 s2)) = contar (Some d) s1.
Proof.
  revert s2. induction s1 as [|[a|] s1 IH]; intros [|[b|] s2]; try done.
  - rewrite not_elem_of_cons. intros [= Hlen] [_ H2].
    change (pares (Some a :: s1) (Some b :: s2)) with ((a, b) :: pares s1 s2).
    rewrite filter_cons, contar_cons. cbn [fst].
    destruct (decide (a = d)) as [->|Hne].
    + rewrite decide_True by done. cbn. f_equal. by apply IH.
    + rewrite decide_False by congruence. by apply IH.
  - rewrite not_elem_of_cons. by intros _ [? _].
  - rewrite not_elem_of_cons. intros [= Hlen] [_ H2].
    change (pares (None :: s1) (Some b :: s2)) with (pares s1 s2).
    rewrite contar_cons, decide_False by done. by apply IH.
  - rewrite not_elem_of_cons. by intros _ [? _].
Qed.

(** X14. On a loaded dataset with the year column, each department of
    the selection list has a series that is not empty, and the counts of
    the series add up to the number of records of the department. *)
Theorem df_depto_filtrado_total analizar contenido df l d :
  cargar_datos analizar contenido = Ok df →
  col_anio ∈ columns df →
  lista_deptos df = Ok l → d ∈ l →
  ∃ s t,
    getitem df col_depto = Ok s ∧ df_depto_filtrado df d = Ok t ∧
    t ≠ [] ∧ suma t = contar (Some d) s ∧ 1 ≤ suma t.
Proof.
  intros Hdf Ha Hl Hd. pose proof (cargar_datos_limpio _ _ _ Hdf) as Hlim.
  destruct (limpio_getitem df _ Hlim Ha) as (sa & Ea & La & Na).
  assert (col_depto ∈ columns df) as Hcd.
  { destruct Hlim as [_ Hcat].
    destruct (Hcat col_depto) as (i & Hi%posicion_lookup & _); [por_calculo|].
    by eapply list_elem_of_lookup_2. }
  destruct (limpio_getitem df _ Hlim Hcd) as (sd & Ed & Ld & Nd).
  exists sd. eexists. split; [done|].
  split; [by apply (df_depto_filtrado_Ok df d sd sa)|].
  unfold lista_deptos in Hl. rewrite Ed in Hl. injection Hl as <-.
  rewrite elem_of_ordenar, elem_of_unique, elem_of_dropna_s in Hd.
  assert (suma ((fun k => (k, contar k (pares sd sa))) <$>
                  filter (fun k => k.1 = d) (ordenar par_leb (unique (pares sd sa))))
          = contar (Some d) sd) as Hsuma.
  { unfold suma. rewrite sum_list_with_fmap. cbn.
    rewrite ordenar_perm.
    rewrite (sum_list_with_ext_in _
               (fun k => contar k (filter (fun p => p.1 = d) (pares sd sa)))).
    - rewrite <- unique_filter, (sum_contar _ _ (NoDup_unique _)).
      + apply length_pares_de; [congruence | done].
      + intros x. by rewrite elem_of_unique.
    - intros k [Hk _]%list_elem_of_filter.
      symmetry. by apply (contar_filter (fun p => p.1 = d)). }
  apply contar_pos in Hd as Hpos.
  split; [|split; [done | lia]].
  intros E. rewrite E in Hsuma. cbn in Hsuma. lia.
Qed.

Lemma df_depto_filtrado_total_witness :
  ∃ s t,
    getitem df_ejemplo col_depto = Ok s ∧
    df_depto_filtrado df_ejemplo (VStr "Cauca") = Ok t ∧
    t ≠ [] ∧ suma t = contar (Some (VStr "Cauca")) s ∧ 1 ≤ suma t.
Proof.
  apply (df_depto_filtrado_total csv_sencillo archivo_ejemplo df_ejemplo
           [VStr "Antioquia"; VStr "Cauca"; VStr "Sin informacion"]).
  - vm_compute. reflexivity.
  - por_calculo.
  - vm_compute. reflexivity.
  - por_calculo.
Defined.

Example df_depto_filtrado_ejemplo :
  df_depto_filtrado df_ejemplo (VStr "Antioquia") =
    Ok [(VStr "Antioquia", VInt 2021, 1); (VStr "Antioquia", VInt 2022, 1)] ∧
  df_depto_filtrado df_ejemplo (VStr "Huila") = Ok [].
Proof. split; vm_compute; reflexivity. Qed.

Lemma primera_lookup {A} `{EqDecision A} (x : A) (l : list A) i :
  primera x l = Some i → l !! i = Some x.
Proof.
  revert i. induction l as [|y l IH]; intros i; simpl; [done|].
  case_decide as E.
  - intros [= <-]. by subst.
  - destruct (primera x l) as [k|]; simpl; [|done].
    intros [= <-]. by apply IH.
Qed.

Lemma primera_None {A} `{EqDecision A} (x : A) (l : list A) :
  x ∉ l → primera x l = None.
Proof.
  intros Hx. destruct (primera x l) as [i|] eqn:E; [|done].
  exfalso. apply Hx. eapply list_elem_of_lookup_2, primera_lookup, E.
Qed.

(** X15. The department selected at first is Antioquia when the list has
    it and the first department of the list otherwise; on a list that is
    not empty the position is within the list. *)
Theorem indice_inicial_valido (lista : list valor) :
  (VStr "Antioquia" ∈ lista →
   lista !! indice_inicial lista = Some (VStr "Antioquia")) ∧
  (VStr "Antioquia" ∉ lista → indice_inicial lista = 0) ∧
  (lista ≠ [] → indice_inicial lista < length lista).
Proof.
  unfold indice_inicial.
  destruct (primera (VStr "Antioquia") lista) as [i|] eqn:E.
  - pose proof (primera_lookup _ _ _ E) as Hi. split; [done|]. split.
    + intros Hno. exfalso. apply Hno. by eapply list_elem_of_lookup_2.
    + intros _. by eapply lookup_lt_Some.
  - split; [|split; [done|]].
    + intros [i Hi]%primera_is_Some. congruence.
    + destruct lista; [done|]. intros _. cbn. lia.
Qed.

Lemma indice_inicial_valido_witness :
  [VStr "Antioquia"; VStr "Cauca"; VStr "Sin informacion"]
    !! indice_inicial [VStr "Antioquia"; VStr "Cauca"; VStr "Sin informacion"]
  = Some (VStr "Antioquia") ∧
  indice_inicial [VStr "Cauca"; VStr "Huila"] = 0 ∧
  indice_inicial [VStr "Cauca"; VStr "Huila"] < 2.
Proof.
  split; [|split].
  - apply (indice_inicial_valido
             [VStr "Antioquia"; VStr "Cauca"; VStr "Sin informacion"]).
    por_calculo.
  - apply (indice_inicial_valido [VStr "Cauca"; VStr "Huila"]). por_calculo.
  - apply (indice_inicial_valido [VStr "Cauca"; VStr "Huila"]). done.
Defined.

(** ** The trend *)

Lemma signo_variacion (ini fin : nat) :
  ini ≠ 0 →
  (0 < (inject_Z (Z.of_nat fin - Z.of_nat ini) / inject_Z (Z.of_nat ini)) * 100)%Q
  ↔ ini < fin.
Proof.
  intros Hini. destruct ini as [|n]; [done|].
  change (Z.of_nat (S n)) with (Z.pos (Pos.of_succ_nat n)).
  unfold Qlt, Qdiv, Qmult, Qinv, inject_Z. cbn. lia.
Qed.

(** X16. The trend is reported as an increase exactly when the count of
    the last year exceeds that of the first; equal counts are reported as
    a decrease. *)
Theorem tendencia_signo t ini fin :
  casos_inicial t = Ok ini → casos_final t = Ok fin →
  tendencia t = Ok (if decide (ini < fin) then "incremento" else "disminución").
Proof.
  intros Hi Hf. unfold tendencia, variacion_total. rewrite Hi, Hf.
  cbn [mbind resultado_bind mret resultado_ret].
  destruct (decide (ini = 0)) as [->|Hne].
  - by destruct (decide (0 < fin)).
  - pose proof (signo_variacion ini fin Hne) as Hs.
    destruct (Qlt_le_dec 0 _) as [Hq|Hq].
    + apply Hs in Hq. by rewrite decide_True.
    + rewrite decide_False; [done|]. intros Hlt. apply Hs in Hlt.
      by apply Qle_not_lt in Hq.
Qed.

Lemma tendencia_signo_witness :
  tendencia [(VInt 2021, 2); (VInt 2022, 1); (VInt 2023, 1)]
  = Ok (if decide (2 < 1) then "incremento" else "disminución").
Proof.
  apply (tendencia_signo [(VInt 2021, 2); (VInt 2022, 1); (VInt 2023, 1)] 2 1);
    reflexivity.
Defined.

Example tendencia_ejemplo :
  tendencia [(VInt 2021, 2); (VInt 2023, 5)] = Ok "incremento" ∧
  tendencia [(VInt 2021, 2); (VInt 2023, 2)] = Ok "disminución" ∧
  tendencia [] = Raise IndexError.
Proof. repeat split. Qed.

(** ** The main reason *)

(** X17. The finding on the reasons never raises: with the three columns
    in the dataset it is the warning exactly when the filtered view is
    empty, and otherwise the first entry of the view, whose count no
    entry of the view exceeds. *)
Theorem razon_principal_segura df incluir ciclo genero :
  col_ciclo ∈ columns df → col_sexo ∈ columns df → col_razon ∈ columns df →
  ∃ t r,
    df_razones_dinamico df incluir ciclo genero = Ok t ∧
    razon_principal t = Ok r ∧
    (r = None ↔ t = []) ∧
    (∀ k n, r = Some (k, n) →
            t !! 0 = Some (k, n) ∧ ∀ k' m, (k', m) ∈ t → m ≤ n).
Proof.
  intros [i Hi]%posicion_is_Some [j Hj]%posicion_is_Some [r Hr]%posicion_is_Some.
  set (F := filter (pasa i j ciclo genero) (filas df)).
  assert (getitem {| columns := columns df; filas := F |} col_razon
          = Ok (celda_en r <$> F)) as Hs
    by (unfold getitem; cbn [columns]; by rewrite Hr).
  pose proof (df_razones_dinamico_Ok df incluir ciclo genero i j _ Hi Hj Hs) as Ht.
  set (s := if incluir then celda_en r <$> F
            else filter (fun x => x ≠ Some sin_informacion) (celda_en r <$> F)) in Ht.
  pose proof (value_counts_sorted s) as Hsort.
  exists (head 10 (value_counts s)). unfold razon_principal, iloc, head in *.
  destruct (value_counts s) as [|[k n] t'] eqn:Et.
  - exists None. cbn. repeat split; done.
  - exists (Some (k, n)). cbn. split; [done|]. split; [done|].
    split; [done|]. intros k0 n0 [= <- <-]. split; [done|].
    intros k' m [[= -> ->]|Hin]%elem_of_cons; [done|].
    apply StronglySorted_inv in Hsort as [_ Hall].
    rewrite Forall_forall in Hall.
    assert ((k', m) ∈ t') as Hin' by (eapply (elem_of_head _ 9); exact Hin).
    apply Hall in Hin'. unfold mas_frecuente in Hin'. cbn in Hin'.
    by apply Nat.leb_le in Hin'.
Qed.

Lemma razon_principal_segura_witness :
  ∃ t r,
    df_razones_dinamico df_ejemplo false "Juventud" "Hombre" = Ok t ∧
    razon_principal t = Ok r ∧
    (r = None ↔ t = []) ∧
    (∀ k n, r = Some (k, n) →
            t !! 0 = Some (k, n) ∧ ∀ k' m, (k', m) ∈ t → m ≤ n).
Proof.
  apply (razon_principal_segura df_ejemplo false "Juventud" "Hombre");
    por_calculo.
Defined.

(** No young man in the example: the view is empty and the finding is
    the warning. *)
Example razon_principal_ejemplo :
  df_razones_dinamico df_ejemplo false "Juventud" "Hombre" = Ok [] ∧
  razon_principal [] = Ok None ∧
  razon_principal [(VStr "Desamor", 1)] = Ok (Some (VStr "Desamor", 1)).
Proof. repeat split; vm_compute; reflexivity. Qed.

(** ** Exclusion before and after counting *)

Section Ordenar_filter.
Context {A : Type} (leb : A → A → bool) (P : A → Prop) `{!∀ x, Decision (P x)}.
Hypothesis leb_trans : ∀ a b c, leb a b = true → leb b c = true → leb a c = true.



End Ordenar_filter.




(** X19. With both selections at [Todos] the filtered view is the fixed
    view of the reasons: the one with the marker when unreported cases
    are included and the one without it when they are not. *)
Theorem df_razones_dinamico_todos df :
  df_razones_dinamico df true "Todos" "Todos" = df_razones df ∧
  df_razones_dinamico df false "Todos" "Todos" = df_razones_filtrado df.
Proof. split; reflexivity. Qed.

(** ** The indicator cards *)

Lemma dom_paso_deltas ind d i año :
  dom (paso_deltas ind d (i, año)) = {[ año ]} ∪ dom d.
Proof.
  unfold paso_deltas. repeat case_decide; by rewrite dom_insert_L.
Qed.

(** X20. Whatever the yearly table holds, both dictionaries have an entry
    for each of the four configured years and for no other year, so the
    cards that read [indicadores[2021]] ... [deltas[2024]] never miss a
    key; and no stored count is negative. *)
Theorem indicadores_claves (t : list (valor * nat)) :
  dom (indicadores t) = list_to_set años_indicadores ∧
  dom (deltas (indicadores t)) = list_to_set años_indicadores ∧
  ∀ y n, indicadores t !! y = Some n → (0 ≤ n)%Z.
Proof.
  split; [|split].
  - unfold indicadores, años_indicadores. cbn [foldl list_to_set].
    repeat destruct (buscar _ t); rewrite !dom_insert_L, dom_empty_L;
      set_solver.
  - unfold deltas, años_indicadores. cbn [imap foldl compose list_to_set].
    rewrite !dom_paso_deltas, dom_empty_L. set_solver.
  - unfold indicadores, años_indicadores. cbn [foldl]. intros y n.
    repeat destruct (buscar _ t);
      rewrite !lookup_insert_Some, lookup_empty; intros H;
      repeat match type of H with
             | _ ∨ _ => destruct H as [H|H]
             | _ ∧ _ => destruct H as [_ H]
             end; try done; subst; lia.
Qed.

Lemma variacion_relativa_cota s a b :
  (-1 <= variacion_relativa s a b)%Q ∧
  (cuenta s a ≠ 0%Z →
   (0 < variacion_relativa s a b)%Q ↔ (cuenta s a < cuenta s b)%Z).
Proof.
  unfold variacion_relativa, cuenta.
  destruct (contar (Some (VInt a)) s) as [|n].
  - rewrite decide_True by done. split; [done|]. by intros [].
  - rewrite decide_False by lia.
    generalize (contar (Some (VInt b)) s). intros m.
    change (Z.of_nat (S n)) with (Z.pos (Pos.of_succ_nat n)).
    split; [|intros _];
      unfold Qlt, Qle, Qdiv, Qmult, Qinv, inject_Z; cbn; lia.
Qed.

(** X21. For two consecutive configured years, the delta shown under the
    later one is never below -100%, and when the earlier year has rows it
    is positive exactly when the later year has more rows. *)
Theorem deltas_cota s i a b :
  años_indicadores !! i = Some a →
  años_indicadores !! S i = Some b →
  ∃ q, deltas (indicadores (groupby_size s)) !! b = Some q ∧
       (-1 <= q)%Q ∧
       (cuenta s a ≠ 0%Z → (0 < q)%Q ↔ (cuenta s a < cuenta s b)%Z).
Proof.
  intros Ha Hb. exists (variacion_relativa s a b).
  split; [|apply variacion_relativa_cota].
  rewrite deltas_groupby.
  destruct i as [|[|[|i]]]; cbn in Ha, Hb; simplify_eq;
    by rewrite ?lookup_insert_ne, lookup_insert_eq by done.
Qed.

Lemma deltas_cota_witness :
  ∃ q, deltas (indicadores (groupby_size
                 [Some (VInt 2021); Some (VInt 2021); Some (VInt 2022)]))
         !! 2022%Z = Some q ∧
       (-1 <= q)%Q ∧
       (cuenta [Some (VInt 2021); Some (VInt 2021); Some (VInt 2022)] 2021
          ≠ 0%Z →
        (0 < q)%Q ↔
        (cuenta [Some (VInt 2021); Some (VInt 2021); Some (VInt 2022)] 2021
         < cuenta [Some (VInt 2021); Some (VInt 2021); Some (VInt 2022)] 2022)%Z).
Proof.
  apply (deltas_cota
           [Some (VInt 2021); Some (VInt 2021); Some (VInt 2022)] 0 2021 2022);
    reflexivity.
Defined.

(** ** The total variation *)

(** X22. On a dataset with at least one year the first and last entries
    of the yearly series are those of the smallest and the largest year
    present, the first count is at least one, and the total variation is
    the relative change between the two counts times 100.  No dataset
    makes the quotient a division by zero. *)
Theorem variacion_total_definida df s :
  getitem df col_anio = Ok s →
  ∃ t, df_temporal df = Ok t ∧
    variacion_total t ≠ Ok NoFinito ∧
    ((∃ y, Some y ∈ s) →
       ∃ y0 y1 ini fin,
         t !! 0 = Some (y0, ini) ∧ last t = Some (y1, fin) ∧
         (∀ y, Some y ∈ s → valor_leb y0 y = true ∧ valor_leb y y1 = true) ∧
         ini = contar (Some y0) s ∧ fin = contar (Some y1) s ∧ 1 ≤ ini ∧
         variacion_total t =
           Ok (Finito ((inject_Z (Z.of_nat fin - Z.of_nat ini)
                        / inject_Z (Z.of_nat ini)) * 100)%Q)).
Proof.
  intros Hs. exists (groupby_size s). split; [by apply df_temporal_Ok|].
  pose proof (claves_groupby s) as Hk.
  assert (StronglySorted (fun a b => valor_leb a b = true) (fst <$> groupby_size s))
    as Hsort.
  { rewrite Hk. apply ordenar_sorted; [apply valor_leb_total | apply valor_leb_trans]. }
  assert (∀ y, Some y ∈ s ↔ y ∈ fst <$> groupby_size s) as Hmem.
  { intros y. by rewrite Hk, elem_of_ordenar, elem_of_unique, elem_of_dropna_s. }
  pose proof (elem_of_groupby_size) as Hel.
  destruct (groupby_size s) as [|[y0 ini] t'] eqn:Et.
  { split; [done|]. intros [y Hy]. apply Hmem in Hy. by apply elem_of_nil in Hy. }
  destruct (last ((y0, ini) :: t')) as [[y1 fin]|] eqn:El;
    [|by apply last_None in El].
  assert ((y0, ini) ∈ groupby_size s) as [H0 ->]%Hel
    by (rewrite Et; by left).
  assert ((y1, fin) ∈ groupby_size s) as [H1 ->]%Hel
    by (rewrite Et; by eapply last_Some_elem_of).
  apply contar_pos in H0 as Hpos.
  assert (variacion_total ((y0, contar (Some y0) s) :: t') =
          Ok (Finito ((inject_Z (Z.of_nat (contar (Some y1) s)
                                 - Z.of_nat (contar (Some y0) s))
                       / inject_Z (Z.of_nat (contar (Some y0) s))) * 100)%Q))
    as Hv.
  { unfold variacion_total. rewrite casos_final_last, El. cbn.
    rewrite decide_False by lia. done. }
  split; [by rewrite Hv|]. intros _.
  exists y0, y1, (contar (Some y0) s), (contar (Some y1) s).
  split; [done|]. split; [done|]. split; [|split; [done|split; [done|split; [lia|done]]]].
  intros z Hz. apply Hmem in Hz. split.
  - cbn in Hsort, Hz. apply StronglySorted_inv in Hsort as [_ Hall].
    apply elem_of_cons in Hz as [->|Hz]; [apply valor_leb_refl|].
    rewrite Forall_forall in Hall. by apply Hall.
  - apply last_Some in El as [l' El]. rewrite El in Hsort, Hz.
    rewrite fmap_app in Hsort, Hz. cbn in Hsort, Hz.
    apply elem_of_app in Hz as [Hz|Hz].
    + eapply (StronglySorted_app_1_elem_of _ _ _ _ _ Hsort); [done|by left].
    + apply list_elem_of_singleton in Hz as ->. apply valor_leb_refl.
Qed.

Lemma variacion_total_definida_witness :
  ∃ t, df_temporal df_ejemplo = Ok t ∧
    variacion_total t ≠ Ok NoFinito ∧
    ((∃ y, Some y ∈ [Some (VInt 2021); Some (VInt 2021); Some (VInt 2022);
                     Some (VInt 2023)]) →
       ∃ y0 y1 ini fin,
         t !! 0 = Some (y0, ini) ∧ last t = Some (y1, fin) ∧
         (∀ y, Some y ∈ [Some (VInt 2021); Some (VInt 2021); Some (VInt 2022);
                         Some (VInt 2023)] →
               valor_leb y0 y = true ∧ valor_leb y y1 = true) ∧
         ini = contar (Some y0) [Some (VInt 2021); Some (VInt 2021);
                                 Some (VInt 2022); Some (VInt 2023)] ∧
         fin = contar (Some y1) [Some (VInt 2021); Some (VInt 2021);
                                 Some (VInt 2022); Some (VInt 2023)] ∧
         1 ≤ ini ∧
         variacion_total t =
           Ok (Finito ((inject_Z (Z.of_nat fin - Z.of_nat ini)
                        / inject_Z (Z.of_nat ini)) * 100)%Q)).
Proof.
  apply (variacion_total_definida df_ejemplo). vm_compute. reflexivity.
Defined.

(** Two rows in 2021 and one in 2023: a variation of -50 per cent. *)
Example variacion_total_ejemplo :
  ∃ t q, df_temporal df_ejemplo = Ok t ∧ variacion_total t = Ok (Finito q) ∧
         (q == -50)%Q.
Proof. eexists _, _. split; [vm_compute; reflexivity|]. split; reflexivity. Qed.
